(** * ocp_dnsnameresolver: the DNSNameResolver informer and plugin lifecycle

    A shallow embedding of [dnsnameresolver.go]: the two DNS-name maps of
    [OCPDNSNameResolver], the Add/Delete/Update event handlers registered by
    [initInformer], and the [onStart]/[onShut] callbacks built by
    [initPlugin], followed by the properties the design document states
    about them. *)

From stdpp Require Import gmap strings list fin_maps.

(** ** Data model *)

(** [type namespaceDNSInfo map[string]string]
    (key: namespace, value: object name). *)
Abbreviation namespaceDNSInfo := (gmap string string).

(** The type of [regularDNSInfo] and [wildcardDNSInfo]:
    DNS name --> namespace --> DNSNameResolver object name. *)
Abbreviation dnsInfo := (gmap string (gmap string string)).

(** Indexing a Go map in an expression, [m[k]]: a key that is absent reads
    as the zero value of the element type, here the empty string. *)
Definition mapIndex (m : namespaceDNSInfo) (k : string) : string :=
  default "" (m !! k).

(** The fields of [ocpnetworkapiv1alpha1.DNSNameResolver] that the handlers
    read: [Namespace], [Name] and [Spec.Name]. *)
Record DNSNameResolverSpec := mkSpec { SpecName : string }.

Record DNSNameResolver := mkResolverObj {
  Namespace : string;
  Name : string;
  Spec : DNSNameResolverSpec
}.

(** An [interface{}] payload as an informer delivers it: a (non-nil) pointer
    to a DNSNameResolver, or a value of any other dynamic type (such as a
    deletion tombstone), kept as its [%v] rendering, which is all the
    handlers use of it. *)
Inductive object :=
  | ObjDNSNameResolver (resolverObj : DNSNameResolver)
  | ObjOther (rendering : string).

(** [chan struct{}]: the zero value is nil, [make] gives an open channel,
    [close] closes it. *)
Inductive chan := ChanNil | ChanOpen | ChanClosed.

(** The modelled fields of [OCPDNSNameResolver].  The mutexes are not
    fields of the model: every critical section below is one function
    application, which is what holding the lock for its duration gives. *)
Record OCPDNSNameResolver := mkResolver {
  namespaces : gset string;
  minimumTTL : Z;
  failureThreshold : Z;
  regularDNSInfo : dnsInfo;
  wildcardDNSInfo : dnsInfo;
  stopCh : chan;
  shutdown : bool
}.

Definition defaultMinTTL : Z := 5.
Definition defaultFailureThreshold : Z := 5.

(** [New()] *)
Definition New : OCPDNSNameResolver :=
  {| namespaces := ∅;
     minimumTTL := defaultMinTTL;
     failureThreshold := defaultFailureThreshold;
     regularDNSInfo := ∅;
     wildcardDNSInfo := ∅;
     stopCh := ChanNil;
     shutdown := false |}.

Definition set_regularDNSInfo (m : dnsInfo) (r : OCPDNSNameResolver) :=
  {| namespaces := namespaces r;
     minimumTTL := minimumTTL r;
     failureThreshold := failureThreshold r;
     regularDNSInfo := m;
     wildcardDNSInfo := wildcardDNSInfo r;
     stopCh := stopCh r;
     shutdown := shutdown r |}.

Definition set_wildcardDNSInfo (m : dnsInfo) (r : OCPDNSNameResolver) :=
  {| namespaces := namespaces r;
     minimumTTL := minimumTTL r;
     failureThreshold := failureThreshold r;
     regularDNSInfo := regularDNSInfo r;
     wildcardDNSInfo := m;
     stopCh := stopCh r;
     shutdown := shutdown r |}.

Definition set_stopCh (c : chan) (r : OCPDNSNameResolver) :=
  {| namespaces := namespaces r;
     minimumTTL := minimumTTL r;
     failureThreshold := failureThreshold r;
     regularDNSInfo := regularDNSInfo r;
     wildcardDNSInfo := wildcardDNSInfo r;
     stopCh := c;
     shutdown := shutdown r |}.

Definition set_shutdown (b : bool) (r : OCPDNSNameResolver) :=
  {| namespaces := namespaces r;
     minimumTTL := minimumTTL r;
     failureThreshold := failureThreshold r;
     regularDNSInfo := regularDNSInfo r;
     wildcardDNSInfo := wildcardDNSInfo r;
     stopCh := stopCh r;
     shutdown := b |}.

(** Go's [error]: [None] is nil. *)
Abbreviation error := (option string).

Inductive level := Info | Warning.

(** ** The critical sections of the Add and Delete handlers

    The wildcard and the regular branch of each handler run the same
    statements between [Lock] and [Unlock], on [wildcardDNSInfo] and on
    [regularDNSInfo] respectively; they are written once here, over the map
    they work on.  A namespace map is made for one DNS name and stored under
    that name only, so updating [dnsInfoMap] in place and storing it back
    is an update of that one entry. *)

(** Lines 102-114 and 120-132.  [None] is the early [return] of the
    handler (lines 106-109, 124-127); [Some m] is the map at [Unlock] when
    the handler goes on. *)
Definition upsert (info : dnsInfo) (dnsName namespace name : string)
  : option dnsInfo :=
  match info !! dnsName with
  | Some dnsInfoMap =>
      if bool_decide (mapIndex dnsInfoMap namespace ≠ name) then None
      else Some (<[dnsName := <[namespace := name]> dnsInfoMap]> info)
  | None =>
      Some (<[dnsName := <[namespace := name]> (∅ : namespaceDNSInfo)]> info)
  end.

(** Lines 161-173 and 179-191. *)
Definition remove (info : dnsInfo) (dnsName namespace name : string)
  : dnsInfo :=
  match info !! dnsName with
  | Some dnsInfoMap =>
      if bool_decide (mapIndex dnsInfoMap namespace = name) then
        let dnsInfoMap' := delete namespace dnsInfoMap in
        if bool_decide (0 < size dnsInfoMap')
        then <[dnsName := dnsInfoMap']> info
        else delete dnsName info
      else info
  | None => info
  end.

(** ** The event handlers of [initInformer] *)

Section Handlers.

(** [isWildcard] and the method [configuredNamespace] are declared in
    other files of the package.  The handlers call the first on the DNS
    name alone and the second on a namespace, against the configured
    [namespaces] of the resolver. *)
Variable isWildcard : string → bool.
Variable configuredNamespace : gset string → string → bool.

(** What the [send] callback works on (a channel in the unit tests). *)
Context {W : Type}.

(** The resolver together with what the handlers do besides updating it:
    the lines they log and the effect of [send]. *)
Record machine := mkMachine {
  plugin : OCPDNSNameResolver;
  logged : list (level * string);
  observed : W
}.

Definition set_plugin (r : OCPDNSNameResolver) (σ : machine) : machine :=
  {| plugin := r; logged := logged σ; observed := observed σ |}.

Definition log (l : level) (msg : string) (σ : machine) : machine :=
  {| plugin := plugin σ;
     logged := logged σ ++ [(l, msg)];
     observed := observed σ |}.

(** [if send != nil { send(resolverObj) }] *)
Definition notify (send : option (DNSNameResolver → W → W))
    (resolverObj : DNSNameResolver) (σ : machine) : machine :=
  match send with
  | Some f =>
      {| plugin := plugin σ;
         logged := logged σ;
         observed := f resolverObj (observed σ) |}
  | None => σ
  end.

Definition AddFunc (send : option (DNSNameResolver → W → W))
    (obj : object) (σ : machine) : machine :=
  match obj with
  | ObjOther v => log Info ("object not of type DNSNameResolver: " +:+ v) σ
  | ObjDNSNameResolver resolverObj =>
      let resolver := plugin σ in
      if negb (configuredNamespace (namespaces resolver) (Namespace resolverObj))
      then σ
      else
        let dnsName := SpecName (Spec resolverObj) in
        if isWildcard dnsName then
          match upsert (wildcardDNSInfo resolver) dnsName
                  (Namespace resolverObj) (Name resolverObj) with
          | None => σ
          | Some m =>
              notify send resolverObj
                (set_plugin (set_wildcardDNSInfo m resolver) σ)
          end
        else
          match upsert (regularDNSInfo resolver) dnsName
                  (Namespace resolverObj) (Name resolverObj) with
          | None => σ
          | Some m =>
              notify send resolverObj
                (set_plugin (set_regularDNSInfo m resolver) σ)
          end
  end.

Definition DeleteFunc (send : option (DNSNameResolver → W → W))
    (obj : object) (σ : machine) : machine :=
  match obj with
  | ObjOther v => log Info ("object not of type DNSNameResolver: " +:+ v) σ
  | ObjDNSNameResolver resolverObj =>
      let resolver := plugin σ in
      if negb (configuredNamespace (namespaces resolver) (Namespace resolverObj))
      then σ
      else
        let dnsName := SpecName (Spec resolverObj) in
        if isWildcard dnsName then
          notify send resolverObj
            (set_plugin
               (set_wildcardDNSInfo
                  (remove (wildcardDNSInfo resolver) dnsName
                     (Namespace resolverObj) (Name resolverObj))
                  resolver) σ)
        else
          notify send resolverObj
            (set_plugin
               (set_regularDNSInfo
                  (remove (regularDNSInfo resolver) dnsName
                     (Namespace resolverObj) (Name resolverObj))
                  resolver) σ)
  end.

(** The handler asserts the type of, filters on and forwards its first
    argument; the local it binds is called [newResolverObj] in the
    source. *)
Definition UpdateFunc (send : option (DNSNameResolver → W → W))
    (oldObj newObj : object) (σ : machine) : machine :=
  match oldObj with
  | ObjOther v => log Info ("object not of type DNSNameResolver: " +:+ v) σ
  | ObjDNSNameResolver newResolverObj =>
      if negb (configuredNamespace (namespaces (plugin σ))
                 (Namespace newResolverObj))
      then σ
      else notify send newResolverObj σ
  end.

(** What the informer delivers to the registered handlers. *)
Inductive notification :=
  | Added (obj : object)
  | Updated (oldObj newObj : object)
  | Deleted (obj : object).

Definition handle (send : option (DNSNameResolver → W → W))
    (ev : notification) (σ : machine) : machine :=
  match ev with
  | Added obj => AddFunc send obj σ
  | Updated oldObj newObj => UpdateFunc send oldObj newObj σ
  | Deleted obj => DeleteFunc send obj σ
  end.

(** The informer delivers its notifications one after the other. *)
Definition deliver (send : option (DNSNameResolver → W → W))
    (evs : list notification) (σ : machine) : machine :=
  foldl (λ σ ev, handle send ev σ) σ evs.

End Handlers.

Arguments machine : clear implicits.
Arguments mkMachine {W}.

(** ** The callbacks of [initPlugin] *)

(** A call that can panic at run time. *)
Inductive outcome (A : Type) :=
  | Returns (a : A)
  | Panics.

Arguments Returns {A} a.
Arguments Panics {A}.

(** The built-in [close]: closing a nil channel or a closed one panics. *)
Definition close (c : chan) : outcome chan :=
  match c with
  | ChanOpen => Returns ChanClosed
  | ChanNil | ChanClosed => Panics
  end.

(** [onShut], lines 273-286.  [stopLock] is held from the first statement
    to the return, so a call is one step on the resolver. *)
Definition onShut (resolver : OCPDNSNameResolver)
  : outcome (error * OCPDNSNameResolver) :=
  if negb (shutdown resolver) then
    match close (stopCh resolver) with
    | Returns c => Returns (None, set_shutdown true (set_stopCh c resolver))
    | Panics => Panics
    end
  else Returns (Some "shutdown already in progress", resolver).

(** What the [select] of [onStart] receives, in the order in which it
    receives it: a tick of [checkSyncTicker], with the answer of
    [HasSynced()] at that moment, a tick of [logTicker], or the tick of
    [timeoutTicker]. *)
Inductive tick :=
  | CheckSyncTick (hasSynced : bool)
  | LogTick
  | TimeoutTick.

(** The [for { select { ... } }] of [onStart], lines 258-270, over the
    ticks received so far.  [None]: the loop is still waiting in [select].
    [Some (err, lines)]: the callback has returned [err], having logged
    [lines]. *)
Fixpoint awaitSync (ticks : list tick) (lines : list (level * string))
  : option (error * list (level * string)) :=
  match ticks with
  | [] => None
  | CheckSyncTick hasSynced :: ticks' =>
      if hasSynced then Some (None, lines) else awaitSync ticks' lines
  | LogTick :: ticks' =>
      awaitSync ticks'
        (lines ++ [(Info, "waiting for DNS Name Resolver Informer sync before starting server")])
  | TimeoutTick :: _ =>
      Some (None,
            lines ++ [(Warning, "starting server with unsynced DNS Name Resolver Informer")])
  end.

(** [onStart], lines 245-271.  The goroutine it starts runs the informer,
    which is where the notifications of [deliver] come from; the callback
    itself goes on to the wait loop at once. *)
Definition onStart (ticks : list tick) : option (error * list (level * string)) :=
  awaitSync ticks [].

Section Plugin.

(** [*rest.Config] and [ocpnetworkclient.Interface], and the two library
    calls that build them, each returning its value with a Go [error]. *)
Variables Config Client : Type.
Variable InClusterConfig : Config * error.
Variable NewForConfig : Config → Client * error.

(** [initInformer], lines 73-222: it stores the client and the informer,
    registers [AddFunc], [DeleteFunc] and [UpdateFunc] (the [handle] above)
    and returns nil. *)
Definition initInformer (networkClient : Client)
    (resolver : OCPDNSNameResolver) : OCPDNSNameResolver * error :=
  (resolver, None).

(** The two callbacks [initPlugin] returns. *)
Record callbacks := mkCallbacks {
  startup : list tick → option (error * list (level * string));
  shutdownFn : OCPDNSNameResolver → outcome (error * OCPDNSNameResolver)
}.

(** [initPlugin], lines 226-289: the callbacks ([None] for the two nils),
    the error, and the resolver as the call leaves it. *)
Definition initPlugin (resolver : OCPDNSNameResolver)
  : option callbacks * error * OCPDNSNameResolver :=
  let '(kubeConfig, err) := InClusterConfig in
  match err with
  | Some _ => (None, err, resolver)
  | None =>
      let '(networkClient, err) := NewForConfig kubeConfig in
      match err with
      | Some _ => (None, err, resolver)
      | None =>
          let '(resolver, err) := initInformer networkClient resolver in
          match err with
          | Some _ => (None, err, resolver)
          | None =>
              let resolver := set_stopCh ChanOpen resolver in
              (Some {| startup := onStart; shutdownFn := onShut |}, None, resolver)
          end
      end
  end.

End Plugin.

(** [n] calls of the shutdown callback, one after the other: what each
    call returned and the resolver it left, or a panic. *)
Fixpoint onShutCalls (n : nat) (resolver : OCPDNSNameResolver)
  : outcome (list (error * OCPDNSNameResolver)) :=
  match n with
  | O => Returns []
  | S n' =>
      match onShut resolver with
      | Panics => Panics
      | Returns (err, resolver') =>
          match onShutCalls n' resolver' with
          | Panics => Panics
          | Returns rest => Returns ((err, resolver') :: rest)
          end
      end
  end.

(** How often a channel was closed along a history of its states: once for
    every step from a channel that is not closed to a closed one ([close]
    is the only statement that makes this step, and it panics on a closed
    channel). *)
Fixpoint closings (c : chan) (history : list chan) : nat :=
  match history with
  | [] => 0
  | c' :: history' =>
      (match c, c' with
       | ChanClosed, _ => 0
       | _, ChanClosed => 1
       | _, _ => 0
       end + closings c' history')%nat
  end.

(** ** Instances of the two functions declared outside this file *)

(** Modelled from the spec: [isWildcard] is declared in another file of the
    package; the design document classifies a DNS name "as wildcard if its
    text begins with the two-character prefix [*.]; otherwise regular". *)
Definition isWildcardPrefix (dnsName : string) : bool :=
  String.prefix "*." dnsName.

(** Modelled from the spec: [configuredNamespace] is declared in another
    file of the package; the design document has it a "pure predicate over
    a configured allow-set".  This instance is membership in the set; the
    document leaves open what an empty set accepts, and no theorem below
    depends on the choice. *)
Definition inAllowSet (namespaces : gset string) (namespace : string) : bool :=
  bool_decide (namespace ∈ namespaces).

(** ** What an index holds *)

(** The owner recorded for a DNS name in a namespace, if there is one. *)
Definition owner (info : dnsInfo) (dnsName namespace : string) : option string :=
  info !! dnsName ≫= λ dnsInfoMap, dnsInfoMap !! namespace.

(** The map a handler works on for a DNS name, and the other one. *)
Definition selected (isWildcard : string → bool) (dnsName : string)
    (r : OCPDNSNameResolver) : dnsInfo :=
  if isWildcard dnsName then wildcardDNSInfo r else regularDNSInfo r.

Definition unselected (isWildcard : string → bool) (dnsName : string)
    (r : OCPDNSNameResolver) : dnsInfo :=
  if isWildcard dnsName then regularDNSInfo r else wildcardDNSInfo r.

(** Storing a map back into the field a DNS name selects. *)
Definition set_selected (isWildcard : string → bool) (dnsName : string)
    (m : dnsInfo) (r : OCPDNSNameResolver) : OCPDNSNameResolver :=
  if isWildcard dnsName then set_wildcardDNSInfo m r else set_regularDNSInfo m r.

(** I2: no DNS name is mapped to an empty namespace map. *)
Definition noEmptyEntries (info : dnsInfo) : Prop :=
  ∀ dnsName dnsInfoMap, info !! dnsName = Some dnsInfoMap → dnsInfoMap ≠ ∅.

(** I3: the wildcard map holds wildcard names only, the regular map holds
    regular names only. *)
Definition partitioned (isWildcard : string → bool) (r : OCPDNSNameResolver) : Prop :=
  (∀ dnsName, is_Some (wildcardDNSInfo r !! dnsName) → isWildcard dnsName = true)
  ∧ (∀ dnsName, is_Some (regularDNSInfo r !! dnsName) → isWildcard dnsName = false).

(** ** States and payloads for the worked examples *)

Definition teamA : gset string := {[ "team-a" ]}.
Definition teamAB : gset string := {[ "team-a"; "team-b" ]}.

Definition fresh : machine (list DNSNameResolver) :=
  mkMachine
    {| namespaces := teamA; minimumTTL := 5; failureThreshold := 5;
       regularDNSInfo := ∅; wildcardDNSInfo := ∅;
       stopCh := ChanOpen; shutdown := false |}
    [] [].

Definition resolverObject (namespace name dnsName : string) : object :=
  ObjDNSNameResolver
    {| Namespace := namespace; Name := name; Spec := mkSpec dnsName |}.

Definition freshAB : machine (list DNSNameResolver) :=
  mkMachine
    {| namespaces := teamAB; minimumTTL := 5; failureThreshold := 5;
       regularDNSInfo := ∅; wildcardDNSInfo := ∅;
       stopCh := ChanOpen; shutdown := false |}
    [] [].

(** The state the design document's example reaches after its first Add,
    with a second namespace configured. *)
Definition owned : machine (list DNSNameResolver) :=
  mkMachine
    {| namespaces := teamAB; minimumTTL := 5; failureThreshold := 5;
       regularDNSInfo := {[ "svc.example.com" := {[ "team-a" := "resolver-1" ]} ]};
       wildcardDNSInfo := ∅;
       stopCh := ChanOpen; shutdown := false |}
    [] [].

(** A [send] that records what it is called on, in order. *)
Definition record : option (DNSNameResolver → list DNSNameResolver → list DNSNameResolver) :=
  Some (λ o seen, seen ++ [o]).

Definition svcA1 : DNSNameResolver :=
  {| Namespace := "team-a"; Name := "resolver-1"; Spec := mkSpec "svc.example.com" |}.
Definition svcB2 : DNSNameResolver :=
  {| Namespace := "team-b"; Name := "resolver-2"; Spec := mkSpec "svc.example.com" |}.
Definition starA1 : DNSNameResolver :=
  {| Namespace := "team-a"; Name := "resolver-3"; Spec := mkSpec "*.example.com" |}.

(** ** Reading the handlers as steps on the resolver *)

(** The resolver a notification leaves, read off the handlers themselves,
    run without [send] on an empty log. *)
Definition react (isWildcard : string → bool)
    (configuredNamespace : gset string → string → bool)
    (ev : notification) (r : OCPDNSNameResolver) : OCPDNSNameResolver :=
  plugin (handle isWildcard configuredNamespace None ev (mkMachine r [] tt)).

(** The DNS name whose entry an Add or a Delete of a DNSNameResolver works
    on; no other notification works on an entry. *)
Definition dnsNameOf (ev : notification) : option string :=
  match ev with
  | Added (ObjDNSNameResolver o) | Deleted (ObjDNSNameResolver o) =>
      Some (SpecName (Spec o))
  | _ => None
  end.

(** The line a handler logs for a payload that is no DNSNameResolver (for
    an Update, the old object), if it logs one. *)
Definition complaint (ev : notification) : list (level * string) :=
  match ev with
  | Added (ObjOther v) | Deleted (ObjOther v) | Updated (ObjOther v) _ =>
      [(Info, "object not of type DNSNameResolver: " +:+ v)]
  | _ => []
  end.

(** An Add of a DNSNameResolver carries an object that has a name, as every
    object of the cluster has. *)
Definition namedAdd (ev : notification) : Prop :=
  match ev with
  | Added (ObjDNSNameResolver o) => Name o ≠ String.EmptyString
  | _ => True
  end.

(** Every entry of a map holds exactly one namespace. *)
Definition oneNamespaceEach (info : dnsInfo) : Prop :=
  ∀ dnsName dnsInfoMap, info !! dnsName = Some dnsInfoMap → size dnsInfoMap = 1.

(** A tick at which the wait loop of [onStart] returns. *)
Definition returning (t : tick) : bool :=
  match t with
  | CheckSyncTick hasSynced => hasSynced
  | LogTick => false
  | TimeoutTick => true
  end.

(** The lines the wait loop has logged at a sequence of ticks at none of
    which it returns: one for each tick of the log ticker. *)
Definition waitingLines (ticks : list tick) : list (level * string) :=
  flat_map
    (λ t, match t with
          | LogTick =>
              [(Info, "waiting for DNS Name Resolver Informer sync before starting server")]
          | _ => []
          end) ticks.

(** ** The callbacks and the handlers side by side *)

(** What reaches the plugin once [initPlugin] has returned: a notification
    from the informer, or a call of the shutdown callback by the server. *)
Inductive call :=
  | Notify (ev : notification)
  | Shut.

(** The calls one after the other: what the shutdown calls returned, in
    order, and the state left, or a panic of [close]. *)
Fixpoint serve (isWildcard : string → bool)
    (configuredNamespace : gset string → string → bool) {W : Type}
    (send : option (DNSNameResolver → W → W))
    (cs : list call) (σ : machine W) : outcome (list error * machine W) :=
  match cs with
  | [] => Returns ([], σ)
  | Notify ev :: cs' =>
      serve isWildcard configuredNamespace send cs'
        (handle isWildcard configuredNamespace send ev σ)
  | Shut :: cs' =>
      match onShut (plugin σ) with
      | Panics => Panics
      | Returns (err, resolver') =>
          match serve isWildcard configuredNamespace send cs'
                  (set_plugin resolver' σ) with
          | Panics => Panics
          | Returns (errs, σ') => Returns (err :: errs, σ')
          end
      end
  end.

Definition notifications (cs : list call) : list notification :=
  flat_map (λ c, match c with Notify ev => [ev] | Shut => [] end) cs.

Fixpoint shuts (cs : list call) : nat :=
  match cs with
  | [] => 0
  | Notify _ :: cs' => shuts cs'
  | Shut :: cs' => S (shuts cs')
  end.

(** What [n] shutdown calls return when the first of them finds the flag
    unset. *)
Definition shutdownErrors (n : nat) : list error :=
  match n with
  | O => []
  | S n' => None :: replicate n' (Some "shutdown already in progress")
  end.

(** A state with its stop channel closed and its shutdown flag set. *)
Definition stop {W : Type} (σ : machine W) : machine W :=
  set_plugin (set_shutdown true (set_stopCh ChanClosed (plugin σ))) σ.

(** ** The critical sections, case by case *)

Lemma mapIndex_Some (m : namespaceDNSInfo) k v :
  m !! k = Some v → mapIndex m k = v.
Proof. unfold mapIndex. by intros ->. Qed.

Lemma mapIndex_None (m : namespaceDNSInfo) k :
  m !! k = None → mapIndex m k = String.EmptyString.
Proof. unfold mapIndex. by intros ->. Qed.

Lemma positive_size_iff (m : namespaceDNSInfo) : 0 < size m ↔ m ≠ ∅.
Proof.
  rewrite <- map_size_non_empty_iff. lia.
Qed.

Lemma upsert_new (info : dnsInfo) dnsName namespace name :
  info !! dnsName = None →
  upsert info dnsName namespace name
  = Some (<[dnsName := {[ namespace := name ]}]> info).
Proof. unfold upsert. intros ->. by rewrite insert_empty. Qed.

Lemma upsert_mismatch (info : dnsInfo) dnsName namespace name dnsInfoMap :
  info !! dnsName = Some dnsInfoMap →
  mapIndex dnsInfoMap namespace ≠ name →
  upsert info dnsName namespace name = None.
Proof. unfold upsert. intros -> Hne. by rewrite bool_decide_true. Qed.

Lemma upsert_match (info : dnsInfo) dnsName namespace name dnsInfoMap :
  info !! dnsName = Some dnsInfoMap →
  mapIndex dnsInfoMap namespace = name →
  upsert info dnsName namespace name
  = Some (<[dnsName := <[namespace := name]> dnsInfoMap]> info).
Proof.
  unfold upsert. intros -> Heq. rewrite bool_decide_false; [done | ].
  intros Hne. by apply Hne.
Qed.

(** Re-adding the recorded owner changes nothing. *)
Lemma upsert_owner (info : dnsInfo) dnsName namespace name :
  owner info dnsName namespace = Some name →
  upsert info dnsName namespace name = Some info.
Proof.
  unfold owner. destruct (info !! dnsName) as [m|] eqn:Hm; [simpl | done].
  intros Hns. rewrite (upsert_match _ _ _ _ m Hm (mapIndex_Some _ _ _ Hns)).
  f_equal. rewrite (insert_id m) by done. by apply insert_id.
Qed.

(** A namespace that the entry of the DNS name does not hold reads as the
    empty string and so mismatches every object that has a name. *)
Lemma upsert_unowned (info : dnsInfo) dnsName namespace name dnsInfoMap :
  info !! dnsName = Some dnsInfoMap →
  dnsInfoMap !! namespace = None →
  name ≠ String.EmptyString →
  upsert info dnsName namespace name = None.
Proof.
  intros Hm Hns Hname. apply (upsert_mismatch _ _ _ _ _ Hm).
  rewrite (mapIndex_None _ _ Hns). congruence.
Qed.

Lemma remove_absent (info : dnsInfo) dnsName namespace name :
  info !! dnsName = None → remove info dnsName namespace name = info.
Proof. unfold remove. by intros ->. Qed.

Lemma remove_mismatch (info : dnsInfo) dnsName namespace name dnsInfoMap :
  info !! dnsName = Some dnsInfoMap →
  mapIndex dnsInfoMap namespace ≠ name →
  remove info dnsName namespace name = info.
Proof. unfold remove. intros -> Hne. by rewrite bool_decide_false. Qed.

Lemma remove_match (info : dnsInfo) dnsName namespace name dnsInfoMap :
  info !! dnsName = Some dnsInfoMap →
  mapIndex dnsInfoMap namespace = name →
  remove info dnsName namespace name
  = if decide (delete namespace dnsInfoMap = ∅)
    then delete dnsName info
    else <[dnsName := delete namespace dnsInfoMap]> info.
Proof.
  unfold remove. intros -> Heq. rewrite bool_decide_true by done. simpl.
  destruct (decide (delete namespace dnsInfoMap = ∅)) as [He|He].
  - rewrite bool_decide_false; [done | ]. rewrite positive_size_iff. tauto.
  - rewrite bool_decide_true; [done | ]. by rewrite positive_size_iff.
Qed.

(** After [remove], the DNS name is not mapped to an empty map, whatever
    the map held before. *)
Lemma remove_lookup_nonempty (info : dnsInfo) dnsName namespace name m :
  (∀ m0, info !! dnsName = Some m0 → m0 ≠ ∅) →
  remove info dnsName namespace name !! dnsName = Some m → m ≠ ∅.
Proof.
  intros Hinfo. destruct (info !! dnsName) as [m0|] eqn:Hm0.
  - destruct (decide (mapIndex m0 namespace = name)) as [Heq|Hne].
    + rewrite (remove_match _ _ _ _ _ Hm0 Heq). case_decide.
      * by rewrite lookup_delete_eq.
      * rewrite lookup_insert_eq. congruence.
    + rewrite (remove_mismatch _ _ _ _ _ Hm0 Hne). rewrite Hm0.
      intros [= <-]. by apply Hinfo.
  - rewrite (remove_absent _ _ _ _ Hm0). by rewrite Hm0.
Qed.

Lemma remove_lookup_ne (info : dnsInfo) dnsName namespace name dnsName' :
  dnsName ≠ dnsName' →
  remove info dnsName namespace name !! dnsName' = info !! dnsName'.
Proof.
  intros Hne. unfold remove. destruct (info !! dnsName) as [m|]; [ | done].
  repeat case_bool_decide; try done.
  - by rewrite lookup_insert_ne.
  - by rewrite lookup_delete_ne.
Qed.

Lemma upsert_lookup_ne (info info' : dnsInfo) dnsName namespace name dnsName' :
  dnsName ≠ dnsName' →
  upsert info dnsName namespace name = Some info' →
  info' !! dnsName' = info !! dnsName'.
Proof.
  intros Hne. unfold upsert. destruct (info !! dnsName) as [m|].
  - case_bool_decide; [done | ]. intros [= <-]. by rewrite lookup_insert_ne.
  - intros [= <-]. by rewrite lookup_insert_ne.
Qed.

Lemma upsert_lookup (info info' : dnsInfo) dnsName namespace name :
  upsert info dnsName namespace name = Some info' →
  ∃ m, info' !! dnsName = Some m ∧ m !! namespace = Some name.
Proof.
  unfold upsert. destruct (info !! dnsName) as [m|].
  - case_bool_decide; [done | ]. intros [= <-].
    eexists. rewrite lookup_insert_eq. split; [done | ]. by rewrite lookup_insert_eq.
  - intros [= <-].
    eexists. rewrite lookup_insert_eq. split; [done | ]. by rewrite lookup_insert_eq.
Qed.

Lemma owner_remove_eq (info : dnsInfo) dnsName namespace name :
  owner (remove info dnsName namespace name) dnsName namespace = None
  ∨ owner (remove info dnsName namespace name) dnsName namespace
    = owner info dnsName namespace
    ∧ owner info dnsName namespace ≠ Some name.
Proof.
  unfold owner at 1 2 3. destruct (info !! dnsName) as [m|] eqn:Hm.
  - destruct (decide (mapIndex m namespace = name)) as [Heq|Hne].
    + left. rewrite (remove_match _ _ _ _ _ Hm Heq). case_decide.
      * by rewrite lookup_delete_eq.
      * rewrite lookup_insert_eq. simpl. by rewrite lookup_delete_eq.
    + right. rewrite (remove_mismatch _ _ _ _ _ Hm Hne). unfold owner.
      rewrite Hm. simpl. split; [done | ].
      intros Hns. apply Hne. by apply mapIndex_Some.
  - left. rewrite (remove_absent _ _ _ _ Hm). by rewrite Hm.
Qed.

Lemma owner_remove_owner (info : dnsInfo) dnsName namespace name :
  owner info dnsName namespace = Some name →
  owner (remove info dnsName namespace name) dnsName namespace = None.
Proof.
  intros Hown. destruct (owner_remove_eq info dnsName namespace name)
    as [Hnone|[_ Hne]]; [done | by destruct Hne].
Qed.

Lemma owner_remove_ne (info : dnsInfo) dnsName namespace name dnsName' namespace' :
  (dnsName', namespace') ≠ (dnsName, namespace) →
  owner (remove info dnsName namespace name) dnsName' namespace'
  = owner info dnsName' namespace'.
Proof.
  intros Hne. unfold owner.
  destruct (decide (dnsName = dnsName')) as [<-|Hn];
    [ | by rewrite remove_lookup_ne].
  assert (namespace ≠ namespace') as Hns by congruence.
  destruct (info !! dnsName) as [m|] eqn:Hm;
    [ | by rewrite (remove_absent _ _ _ _ Hm), Hm].
  destruct (decide (mapIndex m namespace = name)) as [Heq|Hneq];
    [ | by rewrite (remove_mismatch _ _ _ _ _ Hm Hneq), Hm].
  rewrite (remove_match _ _ _ _ _ Hm Heq). case_decide as Hempty.
  - rewrite lookup_delete_eq. simpl.
    rewrite <- (lookup_delete_ne m namespace namespace') by done.
    by rewrite Hempty, lookup_empty.
  - rewrite lookup_insert_eq. simpl. by rewrite lookup_delete_ne.
Qed.

Lemma remove_foreign (info : dnsInfo) dnsName namespace name name' :
  owner info dnsName namespace = Some name →
  name' ≠ name →
  remove info dnsName namespace name' = info.
Proof.
  unfold owner. intros Hown Hne.
  destruct (info !! dnsName) as [m|] eqn:Hm; [simpl in Hown | done].
  apply (remove_mismatch _ _ _ _ _ Hm).
  rewrite (mapIndex_Some _ _ _ Hown). congruence.
Qed.

Lemma upsert_foreign (info : dnsInfo) dnsName namespace name name' :
  owner info dnsName namespace = Some name →
  name' ≠ name →
  upsert info dnsName namespace name' = None.
Proof.
  unfold owner. intros Hown Hne.
  destruct (info !! dnsName) as [m|] eqn:Hm; [simpl in Hown | done].
  apply (upsert_mismatch _ _ _ _ _ Hm).
  rewrite (mapIndex_Some _ _ _ Hown). congruence.
Qed.

(** [upsert] and [remove] are idempotent. *)
Lemma upsert_idempotent (info info' : dnsInfo) dnsName namespace name :
  upsert info dnsName namespace name = Some info' →
  upsert info' dnsName namespace name = Some info'.
Proof.
  intros Hup. apply upsert_owner. unfold owner.
  destruct (upsert_lookup _ _ _ _ _ Hup) as (m & -> & Hm). done.
Qed.

Lemma remove_idempotent (info : dnsInfo) dnsName namespace name :
  remove (remove info dnsName namespace name) dnsName namespace name
  = remove info dnsName namespace name.
Proof.
  destruct (info !! dnsName) as [m|] eqn:Hm;
    [ | by rewrite !(remove_absent _ _ _ _ Hm)].
  destruct (decide (mapIndex m namespace = name)) as [Heq|Hne];
    [ | by rewrite !(remove_mismatch _ _ _ _ _ Hm Hne)].
  rewrite (remove_match _ _ _ _ _ Hm Heq). case_decide as Hempty.
  - apply remove_absent, lookup_delete_eq.
  - set (m' := delete namespace m) in *.
    assert (<[dnsName := m']> info !! dnsName = Some m') as Hm'
      by apply lookup_insert_eq.
    destruct (decide (mapIndex m' namespace = name)) as [Heq'|Hne'];
      [ | by apply (remove_mismatch _ _ _ _ _ Hm')].
    rewrite (remove_match _ _ _ _ _ Hm' Heq').
    assert (delete namespace m' = m') as ->
      by (subst m'; apply delete_id, lookup_delete_eq).
    rewrite decide_False by done. apply insert_insert_eq.
Qed.

(** [upsert] and [remove] keep I2. *)
Lemma noEmptyEntries_upsert (info info' : dnsInfo) dnsName namespace name :
  noEmptyEntries info →
  upsert info dnsName namespace name = Some info' →
  noEmptyEntries info'.
Proof.
  intros Hinfo Hup n m Hn. destruct (decide (dnsName = n)) as [<-|Hne].
  - destruct (upsert_lookup _ _ _ _ _ Hup) as (m' & Hm' & Hns).
    rewrite Hm' in Hn. injection Hn as <-. intros ->.
    by rewrite lookup_empty in Hns.
  - rewrite (upsert_lookup_ne _ _ _ _ _ _ Hne Hup) in Hn. by eapply Hinfo.
Qed.

Lemma noEmptyEntries_remove (info : dnsInfo) dnsName namespace name :
  noEmptyEntries info →
  noEmptyEntries (remove info dnsName namespace name).
Proof.
  intros Hinfo n m Hn. destruct (decide (dnsName = n)) as [<-|Hne].
  - eapply remove_lookup_nonempty; [ | done]. intros m0. apply Hinfo.
  - rewrite (remove_lookup_ne _ _ _ _ _ Hne) in Hn. by eapply Hinfo.
Qed.

Lemma noEmptyEntries_empty : noEmptyEntries ∅.
Proof. intros n m. by rewrite lookup_empty. Qed.

(** Removing the only owner of a DNS name removes its key. *)
Lemma remove_last (info : dnsInfo) dnsName namespace name :
  info !! dnsName = Some {[ namespace := name ]} →
  remove info dnsName namespace name !! dnsName = None.
Proof.
  intros Hm. rewrite (remove_match _ _ _ _ _ Hm).
  - rewrite delete_singleton_eq, decide_True by done. apply lookup_delete_eq.
  - apply mapIndex_Some, lookup_singleton_eq.
Qed.

(** Only the key of the DNS name can enter a map, and none other leaves. *)
Lemma upsert_keys (info info' : dnsInfo) dnsName namespace name n :
  upsert info dnsName namespace name = Some info' →
  is_Some (info' !! n) → n = dnsName ∨ is_Some (info !! n).
Proof.
  intros Hup Hn. destruct (decide (dnsName = n)) as [<-|Hne]; [by left | right].
  by rewrite <- (upsert_lookup_ne _ _ _ _ _ _ Hne Hup).
Qed.

Lemma remove_keys (info : dnsInfo) dnsName namespace name n :
  is_Some (remove info dnsName namespace name !! n) → is_Some (info !! n).
Proof.
  destruct (decide (dnsName = n)) as [<-|Hne];
    [ | by rewrite (remove_lookup_ne _ _ _ _ _ Hne)].
  destruct (info !! dnsName) as [m|] eqn:Hm; [done | ].
  by rewrite (remove_absent _ _ _ _ Hm), Hm.
Qed.

(** ** The handlers, case by case *)

Section HandlerFacts.

Variable isWildcard : string → bool.
Variable configuredNamespace : gset string → string → bool.
Context {W : Type}.

Implicit Types (σ : machine W) (send : option (DNSNameResolver → W → W)).
Implicit Types (r : OCPDNSNameResolver) (o : DNSNameResolver).

Lemma set_regularDNSInfo_id r : set_regularDNSInfo (regularDNSInfo r) r = r.
Proof. by destruct r. Qed.

Lemma set_wildcardDNSInfo_id r : set_wildcardDNSInfo (wildcardDNSInfo r) r = r.
Proof. by destruct r. Qed.

Lemma set_selected_id dnsName r :
  set_selected isWildcard dnsName (selected isWildcard dnsName r) r = r.
Proof.
  unfold set_selected, selected. destruct (isWildcard dnsName).
  - apply set_wildcardDNSInfo_id.
  - apply set_regularDNSInfo_id.
Qed.

Lemma selected_set_selected dnsName m r :
  selected isWildcard dnsName (set_selected isWildcard dnsName m r) = m.
Proof. unfold set_selected, selected. by destruct (isWildcard dnsName). Qed.

Lemma unselected_set_selected dnsName m r :
  unselected isWildcard dnsName (set_selected isWildcard dnsName m r)
  = unselected isWildcard dnsName r.
Proof. unfold set_selected, unselected. by destruct (isWildcard dnsName). Qed.

Lemma namespaces_set_selected dnsName m r :
  namespaces (set_selected isWildcard dnsName m r) = namespaces r.
Proof. unfold set_selected. by destruct (isWildcard dnsName). Qed.

Lemma plugin_notify send o σ : plugin (notify send o σ) = plugin σ.
Proof. by destruct send. Qed.

Lemma plugin_set_plugin r σ : plugin (set_plugin r σ) = r.
Proof. done. Qed.

(** The Add handler on a DNSNameResolver of a configured namespace. *)
Lemma AddFunc_configured send o σ :
  configuredNamespace (namespaces (plugin σ)) (Namespace o) = true →
  AddFunc isWildcard configuredNamespace send (ObjDNSNameResolver o) σ
  = match upsert (selected isWildcard (SpecName (Spec o)) (plugin σ))
            (SpecName (Spec o)) (Namespace o) (Name o) with
    | None => σ
    | Some m =>
        notify send o
          (set_plugin (set_selected isWildcard (SpecName (Spec o)) m (plugin σ)) σ)
    end.
Proof.
  intros Hns. unfold AddFunc, selected, set_selected. rewrite Hns. simpl.
  by destruct (isWildcard (SpecName (Spec o))).
Qed.

(** The Delete handler on a DNSNameResolver of a configured namespace. *)
Lemma DeleteFunc_configured send o σ :
  configuredNamespace (namespaces (plugin σ)) (Namespace o) = true →
  DeleteFunc isWildcard configuredNamespace send (ObjDNSNameResolver o) σ
  = notify send o
      (set_plugin
         (set_selected isWildcard (SpecName (Spec o))
            (remove (selected isWildcard (SpecName (Spec o)) (plugin σ))
               (SpecName (Spec o)) (Namespace o) (Name o))
            (plugin σ)) σ).
Proof.
  intros Hns. unfold DeleteFunc, selected, set_selected. rewrite Hns. simpl.
  by destruct (isWildcard (SpecName (Spec o))).
Qed.

(** A namespace that is not configured: the handlers return at the filter. *)
Lemma AddFunc_filtered send o σ :
  configuredNamespace (namespaces (plugin σ)) (Namespace o) = false →
  AddFunc isWildcard configuredNamespace send (ObjDNSNameResolver o) σ = σ.
Proof. intros Hns. unfold AddFunc. by rewrite Hns. Qed.

Lemma DeleteFunc_filtered send o σ :
  configuredNamespace (namespaces (plugin σ)) (Namespace o) = false →
  DeleteFunc isWildcard configuredNamespace send (ObjDNSNameResolver o) σ = σ.
Proof. intros Hns. unfold DeleteFunc. by rewrite Hns. Qed.

(** No handler touches the configuration. *)
Lemma namespaces_AddFunc send obj σ :
  namespaces (plugin (AddFunc isWildcard configuredNamespace send obj σ))
  = namespaces (plugin σ).
Proof.
  destruct obj as [o|v]; [ | done].
  destruct (configuredNamespace (namespaces (plugin σ)) (Namespace o)) eqn:Hns.
  - rewrite (AddFunc_configured _ _ _ Hns).
    destruct (upsert _ _ _ _); [ | done].
    by rewrite plugin_notify, plugin_set_plugin, namespaces_set_selected.
  - by rewrite (AddFunc_filtered _ _ _ Hns).
Qed.

Lemma namespaces_DeleteFunc send obj σ :
  namespaces (plugin (DeleteFunc isWildcard configuredNamespace send obj σ))
  = namespaces (plugin σ).
Proof.
  destruct obj as [o|v]; [ | done].
  destruct (configuredNamespace (namespaces (plugin σ)) (Namespace o)) eqn:Hns.
  - rewrite (DeleteFunc_configured _ _ _ Hns).
    by rewrite plugin_notify, plugin_set_plugin, namespaces_set_selected.
  - by rewrite (DeleteFunc_filtered _ _ _ Hns).
Qed.

Lemma plugin_UpdateFunc send oldObj newObj σ :
  plugin (UpdateFunc configuredNamespace send oldObj newObj σ) = plugin σ.
Proof.
  unfold UpdateFunc. destruct oldObj as [o|v]; [ | done].
  destruct (configuredNamespace _ _); simpl; [ | done]. apply plugin_notify.
Qed.

(** What a notification can do to the resolver: nothing, or store into the
    map selected by the DNS name of its object the result of [upsert] (an
    Add) or of [remove] (a Delete). *)
Lemma handle_plugin send ev σ :
  plugin (handle isWildcard configuredNamespace send ev σ) = plugin σ
  ∨ ∃ o m,
      (ev = Added (ObjDNSNameResolver o)
       ∧ upsert (selected isWildcard (SpecName (Spec o)) (plugin σ))
           (SpecName (Spec o)) (Namespace o) (Name o) = Some m
       ∨ ev = Deleted (ObjDNSNameResolver o)
         ∧ m = remove (selected isWildcard (SpecName (Spec o)) (plugin σ))
                 (SpecName (Spec o)) (Namespace o) (Name o))
      ∧ plugin (handle isWildcard configuredNamespace send ev σ)
        = set_selected isWildcard (SpecName (Spec o)) m (plugin σ).
Proof.
  destruct ev as [[o|v]|oldObj newObj|[o|v]]; cbn [handle];
    try (by left); try (left; apply plugin_UpdateFunc).
  - destruct (configuredNamespace (namespaces (plugin σ)) (Namespace o)) eqn:Hns;
      [ | left; by rewrite (AddFunc_filtered _ _ _ Hns)].
    rewrite (AddFunc_configured _ _ _ Hns).
    destruct (upsert _ _ _ _) as [m|] eqn:Hup; [ | by left].
    right. exists o, m. rewrite plugin_notify, plugin_set_plugin. eauto.
  - destruct (configuredNamespace (namespaces (plugin σ)) (Namespace o)) eqn:Hns;
      [ | left; by rewrite (DeleteFunc_filtered _ _ _ Hns)].
    rewrite (DeleteFunc_configured _ _ _ Hns).
    right. eexists o, _. rewrite plugin_notify, plugin_set_plugin. eauto.
Qed.

(** A property of the resolver that every notification keeps holds after
    any delivery. *)
Lemma deliver_invariant (P : OCPDNSNameResolver → Prop) send :
  (∀ ev σ, P (plugin σ) →
     P (plugin (handle isWildcard configuredNamespace send ev σ))) →
  ∀ evs σ, P (plugin σ) →
    P (plugin (deliver isWildcard configuredNamespace send evs σ)).
Proof.
  intros Hstep evs. induction evs as [|ev evs IH]; intros σ Hσ; [done | ].
  simpl. apply IH, Hstep, Hσ.
Qed.

Lemma handle_noEmptyEntries send ev σ :
  noEmptyEntries (regularDNSInfo (plugin σ))
  ∧ noEmptyEntries (wildcardDNSInfo (plugin σ)) →
  noEmptyEntries
    (regularDNSInfo (plugin (handle isWildcard configuredNamespace send ev σ)))
  ∧ noEmptyEntries
      (wildcardDNSInfo (plugin (handle isWildcard configuredNamespace send ev σ))).
Proof.
  intros [Hreg Hwild].
  destruct (handle_plugin send ev σ) as [->|(o & m & Hm & ->)]; [done | ].
  assert (noEmptyEntries m) as Hne.
  { unfold selected in Hm. destruct Hm as [[_ Hup]|[_ ->]].
    - eapply noEmptyEntries_upsert; [ | exact Hup].
      by destruct (isWildcard (SpecName (Spec o))).
    - apply noEmptyEntries_remove.
      by destruct (isWildcard (SpecName (Spec o))). }
  unfold set_selected. by destruct (isWildcard (SpecName (Spec o))).
Qed.

Lemma handle_partitioned send ev σ :
  partitioned isWildcard (plugin σ) →
  partitioned isWildcard
    (plugin (handle isWildcard configuredNamespace send ev σ)).
Proof.
  intros [Hwild Hreg].
  destruct (handle_plugin send ev σ) as [->|(o & m & Hm & ->)]; [done | ].
  set (dnsName := SpecName (Spec o)) in *.
  assert (∀ n, is_Some (m !! n) →
            n = dnsName ∨ is_Some (selected isWildcard dnsName (plugin σ) !! n))
    as Hkeys.
  { intros n Hn. destruct Hm as [[_ Hup]|[_ ->]].
    - by eapply upsert_keys.
    - right. by eapply remove_keys. }
  unfold partitioned, set_selected, selected in *.
  destruct (isWildcard dnsName) eqn:Hcls; simpl; split; try done.
  - intros n Hn. destruct (Hkeys n Hn) as [->|Hold]; [done | by apply Hwild].
  - intros n Hn. destruct (Hkeys n Hn) as [->|Hold]; [done | by apply Hreg].
Qed.

End HandlerFacts.

(** ** Ownership of a name within a namespace (I1) *)

Section Ownership.

Variable isWildcard : string → bool.
Variable configuredNamespace : gset string → string → bool.
Context {W : Type}.

Implicit Types (σ : machine W) (send : option (DNSNameResolver → W → W)).

(** C2, conflict rejection.  Let the index that the DNS name [N] selects
    hold owner [A] for [N] in namespace [X], a configured namespace, and let
    [B] differ from [A].  An Add of (N, X, B) returns at the mismatch and
    leaves everything as it was; a Delete of (N, X, B) after it leaves the
    resolver, and so both maps, unchanged; a Delete of (N, X, A) after
    these leaves no owner for [N] in [X], and changes no other owner and
    nothing in the other map. *)
Theorem conflict_rejection send σ N X A B :
  configuredNamespace (namespaces (plugin σ)) X = true →
  owner (selected isWildcard N (plugin σ)) N X = Some A →
  B ≠ A →
  let add := AddFunc isWildcard configuredNamespace send (resolverObject X B N) σ in
  let del := DeleteFunc isWildcard configuredNamespace send (resolverObject X B N) add in
  let del' := DeleteFunc isWildcard configuredNamespace send (resolverObject X A N) del in
  add = σ
  ∧ plugin del = plugin σ
  ∧ owner (selected isWildcard N (plugin del')) N X = None
  ∧ (∀ N' X', (N', X') ≠ (N, X) →
       owner (selected isWildcard N (plugin del')) N' X'
       = owner (selected isWildcard N (plugin σ)) N' X')
  ∧ unselected isWildcard N (plugin del') = unselected isWildcard N (plugin σ).
Proof.
  intros Hns Hown Hne add del del'.
  assert (add = σ) as Hadd.
  { subst add. unfold resolverObject.
    rewrite AddFunc_configured by done. simpl.
    by rewrite (upsert_foreign _ _ _ _ _ Hown Hne). }
  assert (plugin del = plugin σ) as Hdel.
  { subst del. rewrite Hadd. unfold resolverObject.
    rewrite DeleteFunc_configured by done. simpl.
    rewrite plugin_notify, plugin_set_plugin.
    rewrite (remove_foreign _ _ _ _ _ Hown Hne). apply set_selected_id. }
  assert (plugin del'
          = set_selected isWildcard N
              (remove (selected isWildcard N (plugin σ)) N X A) (plugin σ))
    as Hdel'.
  { subst del'. unfold resolverObject.
    rewrite DeleteFunc_configured by (by rewrite Hdel). simpl.
    by rewrite plugin_notify, plugin_set_plugin, Hdel. }
  split; [done | ]. split; [done | ].
  rewrite Hdel', selected_set_selected, unselected_set_selected.
  split; [by apply owner_remove_owner | ].
  split; [ | done].
  intros N' X' Hother. by apply owner_remove_ne.
Qed.

(** An Add from a configured namespace that the entry of its DNS name does
    not hold returns at the mismatch branch, for every object that has a
    name. *)
Lemma AddFunc_unowned_namespace send o σ dnsInfoMap :
  configuredNamespace (namespaces (plugin σ)) (Namespace o) = true →
  selected isWildcard (SpecName (Spec o)) (plugin σ) !! SpecName (Spec o)
    = Some dnsInfoMap →
  dnsInfoMap !! Namespace o = None →
  Name o ≠ String.EmptyString →
  AddFunc isWildcard configuredNamespace send (ObjDNSNameResolver o) σ = σ.
Proof.
  intros Hns Hentry Hfree Hname. rewrite AddFunc_configured by done.
  by rewrite (upsert_unowned _ _ _ _ _ Hentry Hfree Hname).
Qed.

End Ownership.

Lemma conflict_rejection_witness :
  let send := record in
  let N := "svc.example.com" in
  let add :=
    AddFunc isWildcardPrefix inAllowSet send (resolverObject "team-a" "resolver-2" N) owned in
  let del :=
    DeleteFunc isWildcardPrefix inAllowSet send (resolverObject "team-a" "resolver-2" N) add in
  let del' :=
    DeleteFunc isWildcardPrefix inAllowSet send (resolverObject "team-a" "resolver-1" N) del in
  add = owned
  ∧ plugin del = plugin owned
  ∧ owner (selected isWildcardPrefix N (plugin del')) N "team-a" = None
  ∧ (∀ N' X', (N', X') ≠ (N, "team-a") →
       owner (selected isWildcardPrefix N (plugin del')) N' X'
       = owner (selected isWildcardPrefix N (plugin owned)) N' X')
  ∧ unselected isWildcardPrefix N (plugin del')
    = unselected isWildcardPrefix N (plugin owned).
Proof.
  apply (conflict_rejection isWildcardPrefix inAllowSet record owned
           "svc.example.com" "team-a" "resolver-1" "resolver-2").
  - vm_compute. reflexivity.
  - vm_compute. reflexivity.
  - discriminate.
Defined.

(** C1, a second namespace for a DNS name that has an entry.  The Add of
    svc.example.com by resolver-1 of team-a creates the entry.  The Add of
    the same DNS name by resolver-2 of team-b, a configured namespace that
    the entry does not hold, reads the missing key as the empty string,
    takes the mismatch branch and returns: the state is unchanged and
    team-b has no owner for the name. *)
Theorem add_second_namespace_dropped :
  let σ := deliver isWildcardPrefix inAllowSet record
             [Added (ObjDNSNameResolver svcA1)] freshAB in
  let σ' := AddFunc isWildcardPrefix inAllowSet record (ObjDNSNameResolver svcB2) σ in
  inAllowSet (namespaces (plugin σ)) "team-b" = true
  ∧ regularDNSInfo (plugin σ)
    = {[ "svc.example.com" := {[ "team-a" := "resolver-1" ]} ]}
  ∧ owner (regularDNSInfo (plugin σ)) "svc.example.com" "team-b" = None
  ∧ σ' = σ
  ∧ owner (regularDNSInfo (plugin σ')) "svc.example.com" "team-b" = None
  ∧ observed σ' = [svcA1].
Proof. vm_compute. repeat split. Qed.

(** ** Cleanup (I2), idempotence, filtering, partition (I3), updates *)

Section Synchronizer.

Variable isWildcard : string → bool.
Variable configuredNamespace : gset string → string → bool.
Context {W : Type}.

Implicit Types (σ : machine W) (send : option (DNSNameResolver → W → W)).
Implicit Types (o : DNSNameResolver) (ev : notification).

(** C4, no empty entries.  (1) When the map selected by a DNS name holds
    for it exactly one namespace with its owner, the Delete of that owner,
    from a configured namespace, leaves the map without a key for the DNS
    name.  (2) If no key of either map is mapped to an empty namespace map,
    this is still so after any notification.  (3) Starting from two empty
    maps, it is so after any sequence of notifications. *)
Theorem no_empty_entries :
  (∀ send o σ,
     configuredNamespace (namespaces (plugin σ)) (Namespace o) = true →
     selected isWildcard (SpecName (Spec o)) (plugin σ) !! SpecName (Spec o)
       = Some {[ Namespace o := Name o ]} →
     selected isWildcard (SpecName (Spec o))
       (plugin (DeleteFunc isWildcard configuredNamespace send
                  (ObjDNSNameResolver o) σ)) !! SpecName (Spec o) = None)
  ∧ (∀ send ev σ,
       noEmptyEntries (regularDNSInfo (plugin σ)) →
       noEmptyEntries (wildcardDNSInfo (plugin σ)) →
       let σ' := handle isWildcard configuredNamespace send ev σ in
       noEmptyEntries (regularDNSInfo (plugin σ'))
       ∧ noEmptyEntries (wildcardDNSInfo (plugin σ')))
  ∧ (∀ send evs σ,
       regularDNSInfo (plugin σ) = ∅ →
       wildcardDNSInfo (plugin σ) = ∅ →
       let σ' := deliver isWildcard configuredNamespace send evs σ in
       noEmptyEntries (regularDNSInfo (plugin σ'))
       ∧ noEmptyEntries (wildcardDNSInfo (plugin σ'))).
Proof.
  split; [ | split].
  - intros send o σ Hns Hlast.
    rewrite (DeleteFunc_configured _ _ _ _ _ Hns).
    rewrite plugin_notify, plugin_set_plugin, selected_set_selected.
    by apply remove_last.
  - intros send ev σ Hreg Hwild. by apply handle_noEmptyEntries.
  - intros send evs σ Hreg Hwild.
    apply (deliver_invariant isWildcard configuredNamespace
             (λ r, noEmptyEntries (regularDNSInfo r)
                   ∧ noEmptyEntries (wildcardDNSInfo r))).
    + intros ev σ0. apply handle_noEmptyEntries.
    + rewrite Hreg, Hwild. split; apply noEmptyEntries_empty.
Qed.

(** C5, idempotence.  Handling the same Add notification a second time
    leaves the resolver, and so both maps, as the first handling left it;
    likewise for the same Delete notification. *)
Theorem redelivery_idempotent send obj σ :
  plugin (AddFunc isWildcard configuredNamespace send obj
            (AddFunc isWildcard configuredNamespace send obj σ))
  = plugin (AddFunc isWildcard configuredNamespace send obj σ)
  ∧ plugin (DeleteFunc isWildcard configuredNamespace send obj
              (DeleteFunc isWildcard configuredNamespace send obj σ))
    = plugin (DeleteFunc isWildcard configuredNamespace send obj σ).
Proof.
  destruct obj as [o|v]; [ | done].
  destruct (configuredNamespace (namespaces (plugin σ)) (Namespace o)) eqn:Hns.
  - split.
    + rewrite (AddFunc_configured _ _ send o σ Hns).
      destruct (upsert _ _ _ _) as [m|] eqn:Hup.
      * rewrite AddFunc_configured
          by (by rewrite plugin_notify, plugin_set_plugin, namespaces_set_selected).
        rewrite !plugin_notify, !plugin_set_plugin, selected_set_selected.
        rewrite (upsert_idempotent _ _ _ _ _ Hup).
        rewrite plugin_notify, plugin_set_plugin.
        unfold set_selected. by destruct (isWildcard (SpecName (Spec o))).
      * rewrite (AddFunc_configured _ _ send o σ Hns). by rewrite Hup.
    + rewrite (DeleteFunc_configured _ _ send o σ Hns).
      rewrite DeleteFunc_configured
        by (by rewrite plugin_notify, plugin_set_plugin, namespaces_set_selected).
      rewrite !plugin_notify, !plugin_set_plugin, selected_set_selected.
      rewrite remove_idempotent.
      unfold set_selected. by destruct (isWildcard (SpecName (Spec o))).
  - rewrite (AddFunc_filtered _ _ send o σ Hns).
    rewrite (DeleteFunc_filtered _ _ send o σ Hns).
    rewrite (AddFunc_filtered _ _ send o σ Hns).
    by rewrite (DeleteFunc_filtered _ _ send o σ Hns).
Qed.

(** C6, namespace filtering.  For a DNSNameResolver whose namespace the
    filter does not accept, whatever its DNS name: its Add, its Delete and
    an Update that has it as the old object return the state they were
    given, and an Update that has it as the new object leaves the resolver
    unchanged; in each case both maps are as before. *)
Theorem namespace_filtering send o other σ :
  configuredNamespace (namespaces (plugin σ)) (Namespace o) = false →
  handle isWildcard configuredNamespace send (Added (ObjDNSNameResolver o)) σ = σ
  ∧ handle isWildcard configuredNamespace send (Deleted (ObjDNSNameResolver o)) σ = σ
  ∧ handle isWildcard configuredNamespace send
      (Updated (ObjDNSNameResolver o) other) σ = σ
  ∧ plugin (handle isWildcard configuredNamespace send
              (Updated other (ObjDNSNameResolver o)) σ) = plugin σ.
Proof.
  intros Hns. cbn [handle]. repeat split.
  - by apply AddFunc_filtered.
  - by apply DeleteFunc_filtered.
  - unfold UpdateFunc. by rewrite Hns.
  - apply plugin_UpdateFunc.
Qed.

(** C7, partition exclusivity.  (1) An Add or a Delete of a DNSNameResolver
    leaves the map that [isWildcard] does not select for its DNS name as it
    was, and in the selected map every key other than that DNS name as it
    was.  (2) If the wildcard map holds only names that [isWildcard]
    accepts and the regular map only names that it rejects, this is still
    so after any sequence of notifications.  (3) Starting from two empty
    maps, no DNS name is a key of both maps after any sequence of
    notifications. *)
Theorem partition_exclusivity :
  (∀ send o σ σ',
     σ' = AddFunc isWildcard configuredNamespace send (ObjDNSNameResolver o) σ
     ∨ σ' = DeleteFunc isWildcard configuredNamespace send (ObjDNSNameResolver o) σ →
     unselected isWildcard (SpecName (Spec o)) (plugin σ')
     = unselected isWildcard (SpecName (Spec o)) (plugin σ)
     ∧ ∀ n, n ≠ SpecName (Spec o) →
         selected isWildcard (SpecName (Spec o)) (plugin σ') !! n
         = selected isWildcard (SpecName (Spec o)) (plugin σ) !! n)
  ∧ (∀ send evs σ,
       partitioned isWildcard (plugin σ) →
       partitioned isWildcard
         (plugin (deliver isWildcard configuredNamespace send evs σ)))
  ∧ (∀ send evs σ n,
       regularDNSInfo (plugin σ) = ∅ →
       wildcardDNSInfo (plugin σ) = ∅ →
       let σ' := deliver isWildcard configuredNamespace send evs σ in
       ¬ (is_Some (regularDNSInfo (plugin σ') !! n)
          ∧ is_Some (wildcardDNSInfo (plugin σ') !! n))).
Proof.
  assert (∀ send evs σ,
            partitioned isWildcard (plugin σ) →
            partitioned isWildcard
              (plugin (deliver isWildcard configuredNamespace send evs σ)))
    as Hdeliver.
  { intros send evs σ.
    apply (deliver_invariant isWildcard configuredNamespace
             (partitioned isWildcard)).
    intros ev σ0. apply handle_partitioned. }
  split; [ | split; [exact Hdeliver | ]].
  - intros send o σ σ' Hσ'.
    assert (plugin σ' = plugin σ
            ∨ ∃ m, (upsert (selected isWildcard (SpecName (Spec o)) (plugin σ))
                      (SpecName (Spec o)) (Namespace o) (Name o) = Some m
                    ∨ m = remove (selected isWildcard (SpecName (Spec o)) (plugin σ))
                            (SpecName (Spec o)) (Namespace o) (Name o))
                   ∧ plugin σ'
                     = set_selected isWildcard (SpecName (Spec o)) m (plugin σ))
      as [->|(m & Hm & ->)]; [ | done | ].
    { destruct Hσ' as [->| ->].
      - destruct (handle_plugin isWildcard configuredNamespace send
                    (Added (ObjDNSNameResolver o)) σ)
          as [Hsame|(o' & m & [[[= <-] Hup]|[[=] _]] & Hset)];
          [by left | right; eauto].
      - destruct (handle_plugin isWildcard configuredNamespace send
                    (Deleted (ObjDNSNameResolver o)) σ)
          as [Hsame|(o' & m & [[[=] _]|[[= <-] Hrm]] & Hset)];
          [by left | right; eauto]. }
    rewrite unselected_set_selected, selected_set_selected.
    split; [done | ]. intros n Hn. destruct Hm as [Hup| ->].
    + by apply (upsert_lookup_ne _ _ _ _ _ _ (not_eq_sym Hn) Hup).
    + by apply remove_lookup_ne.
  - intros send evs σ n Hreg Hwild σ' [Hr Hw].
    destruct (Hdeliver send evs σ) as [Hwild' Hreg'].
    { split; intros n0; rewrite ?Hreg, ?Hwild, lookup_empty;
        by intros [? ?]. }
    specialize (Hwild' n Hw). specialize (Hreg' n Hr). congruence.
Qed.

(** C8, updates do not mutate.  For every pair of old and new objects the
    Update handler leaves the resolver, and so both maps, as it was.  What
    it does: it logs an old object that is no DNSNameResolver, drops one of
    a namespace that is not configured, and hands any other to [send] when
    [send] is set. *)
Theorem update_no_mutation send oldObj newObj σ :
  let σ' := UpdateFunc configuredNamespace send oldObj newObj σ in
  plugin σ' = plugin σ
  ∧ regularDNSInfo (plugin σ') = regularDNSInfo (plugin σ)
  ∧ wildcardDNSInfo (plugin σ') = wildcardDNSInfo (plugin σ)
  ∧ observed σ'
    = match oldObj, send with
      | ObjDNSNameResolver o, Some f =>
          if configuredNamespace (namespaces (plugin σ)) (Namespace o)
          then f o (observed σ) else observed σ
      | _, _ => observed σ
      end.
Proof.
  intros σ'. subst σ'. rewrite plugin_UpdateFunc. repeat split.
  unfold UpdateFunc. destruct oldObj as [o|v]; [ | by destruct send].
  destruct (configuredNamespace _ _); by destruct send.
Qed.

(** C10, the Update handler reads its first argument only.  The handler
    does the same whatever the new object is; the type check is that of the
    old object (an old object that is no DNSNameResolver is logged and
    nothing more is done), the namespace filtered on is that of the old
    object, and when [send] is called it is called on the old object. *)
Theorem update_reads_old_object send oldObj newObj newObj' σ :
  UpdateFunc configuredNamespace send oldObj newObj σ
  = UpdateFunc configuredNamespace send oldObj newObj' σ
  ∧ UpdateFunc configuredNamespace send oldObj newObj σ
    = match oldObj with
      | ObjOther v =>
          log Info ("object not of type DNSNameResolver: " +:+ v) σ
      | ObjDNSNameResolver old =>
          if configuredNamespace (namespaces (plugin σ)) (Namespace old)
          then match send with
               | Some f =>
                   mkMachine (plugin σ) (logged σ) (f old (observed σ))
               | None => σ
               end
          else σ
      end.
Proof.
  split; [done | ]. unfold UpdateFunc. destruct oldObj as [old|v]; [ | done].
  by destruct (configuredNamespace _ _).
Qed.

End Synchronizer.

(** ** Lifecycle: shutdown and startup *)

Lemma onShut_first resolver :
  stopCh resolver = ChanOpen →
  shutdown resolver = false →
  onShut resolver
  = Returns (None, set_shutdown true (set_stopCh ChanClosed resolver)).
Proof. unfold onShut. by intros -> ->. Qed.

Lemma onShut_again resolver :
  shutdown resolver = true →
  onShut resolver = Returns (Some "shutdown already in progress", resolver).
Proof. unfold onShut. by intros ->. Qed.

Lemma onShutCalls_again n resolver :
  shutdown resolver = true →
  onShutCalls n resolver
  = Returns (replicate n (Some "shutdown already in progress", resolver)).
Proof.
  intros Hshut. induction n as [|n IH]; [done | ].
  simpl. by rewrite (onShut_again _ Hshut), IH.
Qed.

Lemma closings_closed n resolver :
  stopCh resolver = ChanClosed →
  closings ChanClosed
    (map (λ call, stopCh call.2)
       (replicate n (Some "shutdown already in progress", resolver))) = 0.
Proof. intros Hch. induction n as [|n IH]; [done | ]. simpl. by rewrite Hch. Qed.

(** C3, shutdown idempotence.  On a resolver whose [stopCh] is open and
    whose [shutdown] flag is unset, as [initPlugin] leaves it: the first
    call of the shutdown callback returns nil and leaves the channel closed
    and the flag set; in any number of calls, one after the other, no call
    panics, every call after the first returns the error "shutdown already
    in progress" and leaves the resolver as it found it, and the channel
    was closed once. *)
Theorem shutdown_once resolver n :
  stopCh resolver = ChanOpen →
  shutdown resolver = false →
  let stopped := set_shutdown true (set_stopCh ChanClosed resolver) in
  onShut resolver = Returns (None, stopped)
  ∧ ∃ calls,
      onShutCalls (S n) resolver = Returns calls
      ∧ calls = (None, stopped)
                :: replicate n (Some "shutdown already in progress", stopped)
      ∧ closings (stopCh resolver) (map (λ call, stopCh call.2) calls) = 1.
Proof.
  intros Hch Hshut stopped. split; [by apply onShut_first | ].
  eexists. split; [ | split; [reflexivity | ]].
  - cbn [onShutCalls]. rewrite (onShut_first _ Hch Hshut). fold stopped.
    by rewrite (onShutCalls_again n stopped).
  - rewrite Hch. cbn [map closings].
    change (stopCh (None, stopped).2) with ChanClosed.
    by rewrite (closings_closed n stopped).
Qed.

Lemma awaitSync_nil ticks lines err lines' :
  awaitSync ticks lines = Some (err, lines') → err = None.
Proof.
  revert lines. induction ticks as [|[[|]| |] ticks IH]; intros lines; simpl;
    try done; try apply IH; by intros [= <- _].
Qed.

Lemma awaitSync_timeout before after lines :
  ∃ lines', awaitSync (before ++ TimeoutTick :: after) lines = Some (None, lines').
Proof.
  revert lines. induction before as [|[[|]| |] before IH]; intros lines; simpl;
    eauto.
Qed.

Lemma awaitSync_unsynced before after lines :
  Forall (λ t, t ≠ CheckSyncTick true) before →
  ∃ lines',
    awaitSync (before ++ TimeoutTick :: after) lines
    = Some (None,
            lines' ++ [(Warning, "starting server with unsynced DNS Name Resolver Informer")]).
Proof.
  intros Hbefore. revert lines.
  induction Hbefore as [|t before Ht _ IH]; intros lines; simpl; [eauto | ].
  destruct t as [[|]| |]; eauto. done.
Qed.

Lemma awaitSync_synced before after lines :
  ∃ lines',
    awaitSync (before ++ CheckSyncTick true :: after) lines = Some (None, lines').
Proof.
  revert lines. induction before as [|[[|]| |] before IH]; intros lines; simpl;
    eauto.
Qed.

(** C9, startup fails open.  (1) Whenever the startup callback returns, it
    returns nil.  (2) It returns, with nil, as soon as the informer reports
    that it has synced at a tick of the check ticker.  (3) It returns, with
    nil, when the timeout ticker fires; if no check before that saw the
    informer synced, its last log line is the warning that the server
    starts with an unsynced informer.  (4) [initPlugin] returns an error
    exactly when building the cluster configuration or the client fails,
    and then returns no callbacks; otherwise it returns the two
    callbacks. *)
Theorem startup_fails_open :
  (∀ ticks err lines, onStart ticks = Some (err, lines) → err = None)
  ∧ (∀ before after,
       ∃ lines, onStart (before ++ CheckSyncTick true :: after) = Some (None, lines))
  ∧ (∀ before after,
       (∃ lines, onStart (before ++ TimeoutTick :: after) = Some (None, lines))
       ∧ (Forall (λ t, t ≠ CheckSyncTick true) before →
          ∃ lines,
            onStart (before ++ TimeoutTick :: after)
            = Some (None,
                    lines ++ [(Warning, "starting server with unsynced DNS Name Resolver Informer")])))
  ∧ (∀ (Config Client : Type) (InClusterConfig : Config * error)
       (NewForConfig : Config → Client * error) resolver,
       let result := initPlugin Config Client InClusterConfig NewForConfig resolver in
       (result.1.2 ≠ None
        ↔ InClusterConfig.2 ≠ None
          ∨ (NewForConfig InClusterConfig.1).2 ≠ None)
       ∧ (result.1.2 ≠ None → result.1.1 = None)
       ∧ (result.1.2 = None →
          result.1.1 = Some (mkCallbacks onStart onShut))).
Proof.
  split; [ | split; [ | split]].
  - intros ticks err lines. apply awaitSync_nil.
  - intros before after. apply awaitSync_synced.
  - intros before after. split.
    + apply awaitSync_timeout.
    + intros Hbefore. by apply awaitSync_unsynced.
  - intros Config Client [kubeConfig [e1|]] NewForConfig resolver; simpl.
    + repeat split; try done. intros _. by left.
    + destruct (NewForConfig kubeConfig) as [networkClient [e2|]]; simpl.
      * repeat split; try done. intros _. by right.
      * repeat split; try done. intros [?|?]; done.
Qed.

(** ** Instances on the design document's example *)

Lemma no_empty_entries_witness :
  selected isWildcardPrefix "svc.example.com"
    (plugin (DeleteFunc isWildcardPrefix inAllowSet record
               (ObjDNSNameResolver svcA1) owned)) !! "svc.example.com" = None
  ∧ (let σ' := handle isWildcardPrefix inAllowSet record
                 (Deleted (ObjDNSNameResolver svcA1)) owned in
     noEmptyEntries (regularDNSInfo (plugin σ'))
     ∧ noEmptyEntries (wildcardDNSInfo (plugin σ')))
  ∧ (let σ' := deliver isWildcardPrefix inAllowSet record
                 [Added (ObjDNSNameResolver svcA1);
                  Added (ObjDNSNameResolver starA1);
                  Deleted (ObjDNSNameResolver svcA1)] freshAB in
     noEmptyEntries (regularDNSInfo (plugin σ'))
     ∧ noEmptyEntries (wildcardDNSInfo (plugin σ'))).
Proof.
  destruct (no_empty_entries isWildcardPrefix inAllowSet (W := list DNSNameResolver))
    as (Hlast & Hstep & Hrun).
  split; [ | split].
  - apply (Hlast record svcA1 owned); vm_compute; reflexivity.
  - apply (Hstep record (Deleted (ObjDNSNameResolver svcA1)) owned).
    + intros n m. simpl. intros Hn.
      apply lookup_singleton_Some in Hn as [_ <-].
      apply insert_non_empty.
    + apply noEmptyEntries_empty.
  - apply (Hrun record _ freshAB); reflexivity.
Defined.

Lemma namespace_filtering_witness :
  inAllowSet (namespaces (plugin fresh)) (Namespace svcB2) = false
  ∧ handle isWildcardPrefix inAllowSet record (Added (ObjDNSNameResolver svcB2)) fresh
    = fresh
  ∧ handle isWildcardPrefix inAllowSet record (Deleted (ObjDNSNameResolver svcB2)) fresh
    = fresh
  ∧ handle isWildcardPrefix inAllowSet record
      (Updated (ObjDNSNameResolver svcB2) (ObjDNSNameResolver svcA1)) fresh = fresh
  ∧ plugin (handle isWildcardPrefix inAllowSet record
              (Updated (ObjDNSNameResolver svcA1) (ObjDNSNameResolver svcB2)) fresh)
    = plugin fresh.
Proof.
  split; [vm_compute; reflexivity | ].
  apply (namespace_filtering isWildcardPrefix inAllowSet record svcB2
           (ObjDNSNameResolver svcA1) fresh).
  vm_compute. reflexivity.
Defined.

Lemma partition_exclusivity_witness :
  (let σ' := AddFunc isWildcardPrefix inAllowSet record
               (ObjDNSNameResolver starA1) owned in
   regularDNSInfo (plugin σ') = regularDNSInfo (plugin owned))
  ∧ partitioned isWildcardPrefix
      (plugin (deliver isWildcardPrefix inAllowSet record
                 [Added (ObjDNSNameResolver starA1)] owned))
  ∧ (let σ' := deliver isWildcardPrefix inAllowSet record
                 [Added (ObjDNSNameResolver svcA1);
                  Added (ObjDNSNameResolver starA1)] freshAB in
     ¬ (is_Some (regularDNSInfo (plugin σ') !! "*.example.com")
        ∧ is_Some (wildcardDNSInfo (plugin σ') !! "*.example.com"))).
Proof.
  destruct (partition_exclusivity isWildcardPrefix inAllowSet
              (W := list DNSNameResolver)) as (Hframe & Hinv & Hrun).
  split; [ | split].
  - apply (Hframe record starA1 owned). by left.
  - apply (Hinv record _ owned). split; intros n; simpl.
    + rewrite lookup_empty. by intros [? ?].
    + intros [m Hn]. by apply lookup_singleton_Some in Hn as [<- _].
  - apply (Hrun record _ freshAB); reflexivity.
Defined.

Lemma shutdown_once_witness :
  let resolver := set_stopCh ChanOpen New in
  let stopped := set_shutdown true (set_stopCh ChanClosed resolver) in
  onShut resolver = Returns (None, stopped)
  ∧ ∃ calls,
      onShutCalls 3 resolver = Returns calls
      ∧ calls = (None, stopped)
                :: replicate 2 (Some "shutdown already in progress", stopped)
      ∧ closings (stopCh resolver) (map (λ call, stopCh call.2) calls) = 1.
Proof.
  apply (shutdown_once (set_stopCh ChanOpen New) 2); reflexivity.
Defined.

Lemma startup_fails_open_witness :
  onStart [CheckSyncTick false; LogTick; CheckSyncTick false; TimeoutTick]
  = Some (None,
          [(Info, "waiting for DNS Name Resolver Informer sync before starting server");
           (Warning, "starting server with unsynced DNS Name Resolver Informer")])
  ∧ (∃ lines,
       onStart ([CheckSyncTick false; LogTick] ++ TimeoutTick :: [])
       = Some (None,
               lines ++ [(Warning, "starting server with unsynced DNS Name Resolver Informer")]))
  ∧ (let result :=
       initPlugin unit unit (tt, Some "no cluster") (λ _, (tt, None)) New in
     result.1.1 = None).
Proof.
  destruct startup_fails_open as (Hnil & Hsync & Htimeout & Hinit).
  split; [reflexivity | split].
  - apply (Htimeout [CheckSyncTick false; LogTick] []).
    repeat constructor; discriminate.
  - apply (Hinit unit unit (tt, Some "no cluster") (λ _, (tt, None)) New).
    discriminate.
Defined.

(** ** Worked examples *)

Example add_regular :
  regularDNSInfo (plugin
    (AddFunc isWildcardPrefix inAllowSet None
       (resolverObject "team-a" "resolver-1" "svc.example.com") fresh))
  = {[ "svc.example.com" := {[ "team-a" := "resolver-1" ]} ]}.
Proof. vm_compute. reflexivity. Qed.


Example delete_regular :
  regularDNSInfo (plugin
    (deliver isWildcardPrefix inAllowSet None
       [Added (resolverObject "team-a" "resolver-1" "svc.example.com");
        Deleted (resolverObject "team-a" "resolver-1" "svc.example.com")] fresh))
  = ∅.
Proof. vm_compute. reflexivity. Qed.

Example wildcard_routing :
  let σ := deliver isWildcardPrefix inAllowSet None
             [Added (resolverObject "team-a" "r1" "*.example.com");
              Added (resolverObject "team-a" "r2" "www.example.com");
              Added (resolverObject "team-a" "r3" "*example.com")] fresh in
  wildcardDNSInfo (plugin σ) = {[ "*.example.com" := {[ "team-a" := "r1" ]} ]}
  ∧ regularDNSInfo (plugin σ)
    = {[ "www.example.com" := {[ "team-a" := "r2" ]};
         "*example.com" := {[ "team-a" := "r3" ]} ]}.
Proof. vm_compute. split; reflexivity. Qed.

(** An Update hands the old object to [send], not the new one. *)
Example update_sends_old :
  observed (UpdateFunc inAllowSet record
              (ObjDNSNameResolver svcA1) (ObjDNSNameResolver starA1) fresh)
  = [svcA1].
Proof. reflexivity. Qed.

(** ** More on the handlers: what an Add and a Delete leave behind *)

Lemma owner_upsert_eq (info info' : dnsInfo) dnsName namespace name :
  upsert info dnsName namespace name = Some info' →
  owner info' dnsName namespace = Some name.
Proof.
  intros Hup. unfold owner.
  by destruct (upsert_lookup _ _ _ _ _ Hup) as (m & -> & Hm).
Qed.

Lemma owner_upsert_ne (info info' : dnsInfo) dnsName namespace name
    dnsName' namespace' :
  upsert info dnsName namespace name = Some info' →
  (dnsName', namespace') ≠ (dnsName, namespace) →
  owner info' dnsName' namespace' = owner info dnsName' namespace'.
Proof.
  intros Hup Hne. unfold owner.
  destruct (decide (dnsName = dnsName')) as [<-|Hn];
    [ | by rewrite (upsert_lookup_ne _ _ _ _ _ _ Hn Hup)].
  assert (namespace ≠ namespace') as Hns by congruence.
  revert Hup. unfold upsert. destruct (info !! dnsName) as [m|].
  - case_bool_decide; [done | ]. intros [= <-].
    rewrite lookup_insert_eq. simpl. by rewrite lookup_insert_ne.
  - intros [= <-]. rewrite lookup_insert_eq. simpl.
    by rewrite lookup_insert_ne, lookup_empty.
Qed.

Lemma upsert_None_owner (info : dnsInfo) dnsName namespace name :
  upsert info dnsName namespace name = None →
  owner info dnsName namespace ≠ Some name.
Proof.
  unfold upsert, owner. destruct (info !! dnsName) as [m|]; [simpl | done].
  case_bool_decide as Hne; [ | done]. intros _ Hm.
  apply Hne. by apply mapIndex_Some.
Qed.

Section Outcomes.

Variable isWildcard : string → bool.
Variable configuredNamespace : gset string → string → bool.
Context {W : Type}.

Implicit Types (σ : machine W) (send : option (DNSNameResolver → W → W)).
Implicit Types (r : OCPDNSNameResolver) (o : DNSNameResolver).

Lemma observed_notify send o σ :
  observed (notify send o σ)
  = match send with Some f => f o (observed σ) | None => observed σ end.
Proof. by destruct send. Qed.

Lemma logged_notify send o σ : logged (notify send o σ) = logged σ.
Proof. by destruct send. Qed.

(** X1, a name that has no entry: registration and its undoing.  For a
    DNSNameResolver of a configured namespace whose DNS name is no key of
    the map it selects: its Add stores for the name the one-namespace map
    of the object and leaves every other key and the other map alone; its
    Delete after that gives back the resolver as it was before the Add. *)
Theorem register_unregister send o σ :
  configuredNamespace (namespaces (plugin σ)) (Namespace o) = true →
  selected isWildcard (SpecName (Spec o)) (plugin σ) !! SpecName (Spec o) = None →
  let add := AddFunc isWildcard configuredNamespace send (ObjDNSNameResolver o) σ in
  let del := DeleteFunc isWildcard configuredNamespace send (ObjDNSNameResolver o) add in
  selected isWildcard (SpecName (Spec o)) (plugin add)
  = <[SpecName (Spec o) := {[ Namespace o := Name o ]}]>
      (selected isWildcard (SpecName (Spec o)) (plugin σ))
  ∧ unselected isWildcard (SpecName (Spec o)) (plugin add)
    = unselected isWildcard (SpecName (Spec o)) (plugin σ)
  ∧ plugin del = plugin σ.
Proof.
  intros Hns Hfresh add del.
  assert (plugin add
          = set_selected isWildcard (SpecName (Spec o))
              (<[SpecName (Spec o) := {[ Namespace o := Name o ]}]>
                 (selected isWildcard (SpecName (Spec o)) (plugin σ)))
              (plugin σ)) as Hadd.
  { subst add. rewrite (AddFunc_configured _ _ _ _ _ Hns).
    rewrite (upsert_new _ _ _ _ Hfresh).
    by rewrite plugin_notify, plugin_set_plugin. }
  split; [by rewrite Hadd, selected_set_selected | ].
  split; [by rewrite Hadd, unselected_set_selected | ].
  subst del. rewrite DeleteFunc_configured
    by (by rewrite Hadd, namespaces_set_selected).
  rewrite plugin_notify, plugin_set_plugin, Hadd, selected_set_selected.
  assert (remove
            (<[SpecName (Spec o) := {[ Namespace o := Name o ]}]>
               (selected isWildcard (SpecName (Spec o)) (plugin σ)))
            (SpecName (Spec o)) (Namespace o) (Name o)
          = selected isWildcard (SpecName (Spec o)) (plugin σ)) as ->.
  { rewrite (remove_match _ _ _ _ {[ Namespace o := Name o ]}).
    - rewrite delete_singleton_eq, decide_True by done.
      by rewrite delete_insert_eq, delete_id.
    - apply lookup_insert_eq.
    - apply mapIndex_Some, lookup_singleton_eq. }
  unfold set_selected, selected.
  destruct (isWildcard (SpecName (Spec o))), (plugin σ); done.
Qed.

(** X2, what an Add leaves.  For a DNSNameResolver of a configured
    namespace, the Add handler either returns the state it was given, log
    and observer included, and then the object was not the recorded owner
    of its DNS name in its namespace; or it leaves the object recorded as
    that owner, has called [send] on it when [send] is set, and has logged
    nothing. *)
Theorem add_outcome send o σ :
  configuredNamespace (namespaces (plugin σ)) (Namespace o) = true →
  let N := SpecName (Spec o) in
  let σ' := AddFunc isWildcard configuredNamespace send (ObjDNSNameResolver o) σ in
  (σ' = σ
   ∧ owner (selected isWildcard N (plugin σ)) N (Namespace o) ≠ Some (Name o))
  ∨ (owner (selected isWildcard N (plugin σ')) N (Namespace o) = Some (Name o)
     ∧ observed σ'
       = match send with Some f => f o (observed σ) | None => observed σ end
     ∧ logged σ' = logged σ).
Proof.
  intros Hns N σ'. subst σ'. rewrite (AddFunc_configured _ _ _ _ _ Hns). fold N.
  destruct (upsert _ _ _ _) as [m|] eqn:Hup.
  - right. rewrite plugin_notify, plugin_set_plugin, selected_set_selected.
    rewrite observed_notify, logged_notify.
    split; [by eapply owner_upsert_eq | done].
  - left. split; [done | by apply upsert_None_owner].
Qed.


End Outcomes.

(** ** More on deliveries: owners, configuration, log *)

Section Deliveries.

Variable isWildcard : string → bool.
Variable configuredNamespace : gset string → string → bool.
Context {W : Type}.

Implicit Types (σ : machine W) (send : option (DNSNameResolver → W → W)).
Implicit Types (r : OCPDNSNameResolver) (o : DNSNameResolver).
Implicit Types (ev : notification) (evs : list notification).

Lemma selected_same_class N n r :
  isWildcard N = isWildcard n →
  selected isWildcard N r = selected isWildcard n r.
Proof. unfold selected. by intros ->. Qed.

Lemma selected_set_selected_class N n m r :
  selected isWildcard N (set_selected isWildcard n m r)
  = if bool_decide (isWildcard N = isWildcard n) then m
    else selected isWildcard N r.
Proof.
  unfold selected, set_selected.
  by destruct (isWildcard N), (isWildcard n).
Qed.

Lemma resolverObject_eta o :
  ObjDNSNameResolver o
  = resolverObject (Namespace o) (Name o) (SpecName (Spec o)).
Proof. by destruct o as [X A [N]]. Qed.

(** [handle_plugin], with the filter: a notification that changes the
    resolver carries a DNSNameResolver of a configured namespace. *)
Lemma handle_plugin_configured send ev σ :
  plugin (handle isWildcard configuredNamespace send ev σ) = plugin σ
  ∨ ∃ o m,
      configuredNamespace (namespaces (plugin σ)) (Namespace o) = true
      ∧ (ev = Added (ObjDNSNameResolver o)
         ∧ upsert (selected isWildcard (SpecName (Spec o)) (plugin σ))
             (SpecName (Spec o)) (Namespace o) (Name o) = Some m
         ∨ ev = Deleted (ObjDNSNameResolver o)
           ∧ m = remove (selected isWildcard (SpecName (Spec o)) (plugin σ))
                   (SpecName (Spec o)) (Namespace o) (Name o))
      ∧ plugin (handle isWildcard configuredNamespace send ev σ)
        = set_selected isWildcard (SpecName (Spec o)) m (plugin σ).
Proof.
  destruct ev as [[o|v]|oldObj newObj|[o|v]]; cbn [handle];
    try (by left); try (left; apply plugin_UpdateFunc).
  - destruct (configuredNamespace (namespaces (plugin σ)) (Namespace o)) eqn:Hns;
      [ | left; by rewrite (AddFunc_filtered _ _ _ _ _ Hns)].
    rewrite (AddFunc_configured _ _ _ _ _ Hns).
    destruct (upsert _ _ _ _) as [m|] eqn:Hup; [ | by left].
    right. exists o, m. rewrite plugin_notify, plugin_set_plugin. eauto.
  - destruct (configuredNamespace (namespaces (plugin σ)) (Namespace o)) eqn:Hns;
      [ | left; by rewrite (DeleteFunc_filtered _ _ _ _ _ Hns)].
    rewrite (DeleteFunc_configured _ _ _ _ _ Hns).
    right. eexists o, _. rewrite plugin_notify, plugin_set_plugin. eauto.
Qed.

Lemma deliver_cons send ev evs σ :
  deliver isWildcard configuredNamespace send (ev :: evs) σ
  = deliver isWildcard configuredNamespace send evs
      (handle isWildcard configuredNamespace send ev σ).
Proof. done. Qed.

Lemma handle_untouched send ev σ :
  let r' := plugin (handle isWildcard configuredNamespace send ev σ) in
  namespaces r' = namespaces (plugin σ)
  ∧ minimumTTL r' = minimumTTL (plugin σ)
  ∧ failureThreshold r' = failureThreshold (plugin σ)
  ∧ stopCh r' = stopCh (plugin σ)
  ∧ shutdown r' = shutdown (plugin σ).
Proof.
  intros r'. subst r'.
  destruct (handle_plugin isWildcard configuredNamespace send ev σ)
    as [->|(o & m & _ & ->)]; [done | ].
  unfold set_selected. by destruct (isWildcard (SpecName (Spec o))).
Qed.

(** X4, the handlers keep to the two maps.  After any sequence of
    notifications the configured namespaces, the two thresholds, the stop
    channel and the shutdown flag of the resolver are what they were. *)
Theorem configuration_untouched send evs σ :
  let r' := plugin (deliver isWildcard configuredNamespace send evs σ) in
  namespaces r' = namespaces (plugin σ)
  ∧ minimumTTL r' = minimumTTL (plugin σ)
  ∧ failureThreshold r' = failureThreshold (plugin σ)
  ∧ stopCh r' = stopCh (plugin σ)
  ∧ shutdown r' = shutdown (plugin σ).
Proof.
  revert σ. induction evs as [|ev evs IH]; intros σ; [done | ].
  rewrite deliver_cons. cbv zeta.
  pose proof (IH (handle isWildcard configuredNamespace send ev σ)) as Hevs.
  cbv zeta in Hevs. destruct Hevs as (-> & -> & -> & -> & ->).
  apply handle_untouched.
Qed.

Lemma handle_owner_kept send ev σ N X A :
  owner (selected isWildcard N (plugin σ)) N X = Some A →
  ev ≠ Deleted (resolverObject X A N) →
  owner (selected isWildcard N
           (plugin (handle isWildcard configuredNamespace send ev σ))) N X
  = Some A.
Proof.
  intros Hown Hev.
  destruct (handle_plugin isWildcard configuredNamespace send ev σ)
    as [->|(o & m & Hm & ->)]; [done | ].
  rewrite selected_set_selected_class. case_bool_decide as Hcls; [ | done].
  rewrite (selected_same_class _ _ _ Hcls) in Hown.
  destruct (decide ((N, X) = (SpecName (Spec o), Namespace o))) as [[= -> ->]|Hne].
  - destruct (decide (Name o = A)) as [<-|Hname].
    + destruct Hm as [[_ Hup]|[-> _]].
      * by eapply owner_upsert_eq.
      * by rewrite resolverObject_eta in Hev.
    + destruct Hm as [[_ Hup]|[_ ->]].
      * by rewrite (upsert_foreign _ _ _ _ _ Hown Hname) in Hup.
      * by rewrite (remove_foreign _ _ _ _ _ Hown Hname).
  - destruct Hm as [[_ Hup]|[_ ->]].
    + by rewrite (owner_upsert_ne _ _ _ _ _ _ _ Hup Hne).
    + by rewrite (owner_remove_ne _ _ _ _ _ _ Hne).
Qed.

(** X5, an owner stays until its own Delete.  If the map a DNS name
    selects records owner [A] for it in namespace [X], then after any
    sequence of notifications that does not contain the Delete of
    (N, X, A), it still records [A]: no Add, no Update and no Delete of
    another object displaces an owner. *)
Theorem owner_stays send evs σ N X A :
  owner (selected isWildcard N (plugin σ)) N X = Some A →
  Deleted (resolverObject X A N) ∉ evs →
  owner (selected isWildcard N
           (plugin (deliver isWildcard configuredNamespace send evs σ))) N X
  = Some A.
Proof.
  revert σ. induction evs as [|ev evs IH]; intros σ Hown Hevs; [done | ].
  rewrite deliver_cons.
  apply not_elem_of_cons in Hevs as [Hev Hevs].
  apply IH; [ | done]. apply handle_owner_kept; [done | congruence].
Qed.

Lemma handle_owner_origin send ev σ N X A :
  owner (selected isWildcard N
           (plugin (handle isWildcard configuredNamespace send ev σ))) N X
  = Some A →
  owner (selected isWildcard N (plugin σ)) N X = Some A
  ∨ ev = Added (resolverObject X A N)
    ∧ configuredNamespace (namespaces (plugin σ)) X = true.
Proof.
  destruct (handle_plugin_configured send ev σ)
    as [->|(o & m & Hns & Hm & ->)]; [by left | ].
  rewrite selected_set_selected_class. case_bool_decide as Hcls; [ | by left].
  rewrite (selected_same_class _ _ _ Hcls).
  destruct (decide ((N, X) = (SpecName (Spec o), Namespace o))) as [[= -> ->]|Hne].
  - destruct Hm as [[-> Hup]|[_ ->]].
    + rewrite (owner_upsert_eq _ _ _ _ _ Hup). intros [= <-]. right.
      by rewrite resolverObject_eta.
    + destruct (owner_remove_eq (selected isWildcard (SpecName (Spec o)) (plugin σ))
                  (SpecName (Spec o)) (Namespace o) (Name o)) as [-> |[-> _]];
        [done | by left].
  - destruct Hm as [[_ Hup]|[_ ->]].
    + rewrite (owner_upsert_ne _ _ _ _ _ _ _ Hup Hne). by left.
    + rewrite (owner_remove_ne _ _ _ _ _ _ Hne). by left.
Qed.

(** X6, no owner without its Add.  An owner [A] that the map selected by a
    DNS name records for it in namespace [X] after a sequence of
    notifications was recorded before the sequence, or the sequence
    contains the Add of (N, X, A) and [X] is a configured namespace. *)
Theorem owner_origin send evs σ N X A :
  owner (selected isWildcard N
           (plugin (deliver isWildcard configuredNamespace send evs σ))) N X
  = Some A →
  owner (selected isWildcard N (plugin σ)) N X = Some A
  ∨ Added (resolverObject X A N) ∈ evs
    ∧ configuredNamespace (namespaces (plugin σ)) X = true.
Proof.
  revert σ. induction evs as [|ev evs IH]; intros σ; [by left | ].
  rewrite deliver_cons.
  intros Hown. apply IH in Hown as [Hown|[Hin Hns]].
  - apply handle_owner_origin in Hown as [Hown|[-> Hns]]; [by left | right].
    split; [apply list_elem_of_here | done].
  - right. split; [by apply list_elem_of_further | ].
    by destruct (handle_untouched send ev σ) as (<- & _).
Qed.

Lemma handle_logged send ev σ :
  logged (handle isWildcard configuredNamespace send ev σ)
  = logged σ ++ complaint ev.
Proof.
  destruct ev as [[o|v]|[o|v] newObj|[o|v]]; cbn [handle complaint];
    try done; rewrite app_nil_r.
  - destruct (configuredNamespace (namespaces (plugin σ)) (Namespace o)) eqn:Hns;
      [ | by rewrite (AddFunc_filtered _ _ _ _ _ Hns)].
    rewrite (AddFunc_configured _ _ _ _ _ Hns).
    destruct (upsert _ _ _ _); [ | done]. by rewrite logged_notify.
  - unfold UpdateFunc. destruct (configuredNamespace _ _); simpl; [ | done].
    by rewrite logged_notify.
  - destruct (configuredNamespace (namespaces (plugin σ)) (Namespace o)) eqn:Hns;
      [ | by rewrite (DeleteFunc_filtered _ _ _ _ _ Hns)].
    rewrite (DeleteFunc_configured _ _ _ _ _ Hns). by rewrite logged_notify.
Qed.

(** X7, what is logged.  Over any sequence of notifications the handlers
    log one Info line for every payload that is no DNSNameResolver (the old
    object of an Update), in the order of delivery, and nothing else:
    neither a filtered namespace nor an ownership mismatch is logged. *)
Theorem logged_complaints send evs σ :
  logged (deliver isWildcard configuredNamespace send evs σ)
  = logged σ ++ flat_map complaint evs.
Proof.
  revert σ. induction evs as [|ev evs IH]; intros σ;
    [by rewrite app_nil_r | ].
  rewrite deliver_cons. cbn [flat_map].
  by rewrite IH, handle_logged, app_assoc.
Qed.

End Deliveries.

(** ** More on deliveries: notifications for different DNS names *)

Lemma upsert_partial_alter dnsName namespace name :
  ∃ f, ∀ info : dnsInfo,
    default info (upsert info dnsName namespace name)
    = partial_alter f dnsName info.
Proof.
  exists (λ entry : option namespaceDNSInfo,
            match entry with
            | Some m =>
                if bool_decide (mapIndex m namespace ≠ name) then Some m
                else Some (<[namespace := name]> m)
            | None => Some (<[namespace := name]> ∅)
            end).
  intros info. unfold upsert.
  destruct (info !! dnsName) as [m|] eqn:Hm.
  - case_bool_decide as Hne; simpl.
    + rewrite <- (partial_alter_self info dnsName) at 1.
      apply partial_alter_ext. intros e He. rewrite Hm in He. subst e.
      by rewrite Hm, bool_decide_true.
    + apply partial_alter_ext. intros e He. rewrite Hm in He. subst e.
      rewrite bool_decide_false; [done | ]. intros Hc. by apply Hc.
  - simpl. apply partial_alter_ext. intros e He. rewrite Hm in He. by subst e.
Qed.

Lemma remove_partial_alter dnsName namespace name :
  ∃ f, ∀ info : dnsInfo,
    remove info dnsName namespace name = partial_alter f dnsName info.
Proof.
  exists (λ entry : option namespaceDNSInfo,
            match entry with
            | Some m =>
                if bool_decide (mapIndex m namespace = name) then
                  if bool_decide (0 < size (delete namespace m))
                  then Some (delete namespace m) else None
                else Some m
            | None => None
            end).
  intros info. unfold remove.
  destruct (info !! dnsName) as [m|] eqn:Hm.
  - case_bool_decide as Heq; [case_bool_decide as Hsize | ].
    + apply partial_alter_ext. intros e He. rewrite Hm in He. subst e.
      by rewrite !bool_decide_true.
    + apply partial_alter_ext. intros e He. rewrite Hm in He. subst e.
      by rewrite bool_decide_true, bool_decide_false.
    + rewrite <- (partial_alter_self info dnsName) at 1.
      apply partial_alter_ext. intros e He. rewrite Hm in He. subst e.
      by rewrite Hm, bool_decide_false.
  - rewrite <- (partial_alter_self info dnsName) at 1.
    apply partial_alter_ext. intros e He. rewrite Hm in He. subst e.
    by rewrite Hm.
Qed.

Section Commutation.

Variable isWildcard : string → bool.
Variable configuredNamespace : gset string → string → bool.

Implicit Types (r : OCPDNSNameResolver) (o : DNSNameResolver).
Implicit Types (ev : notification).

(** The resolver after a notification is a function of the resolver before
    it: neither the log, nor the observer, nor [send] has a part in it. *)
Lemma plugin_handle {W} (send : option (DNSNameResolver → W → W)) ev
    (σ : machine W) :
  plugin (handle isWildcard configuredNamespace send ev σ)
  = react isWildcard configuredNamespace ev (plugin σ).
Proof.
  unfold react. destruct ev as [[o|v]|oldObj newObj|[o|v]]; cbn [handle];
    try done.
  - destruct (configuredNamespace (namespaces (plugin σ)) (Namespace o)) eqn:Hns.
    + rewrite (AddFunc_configured _ _ send o σ Hns).
      rewrite (AddFunc_configured _ _ None o (mkMachine (plugin σ) [] tt) Hns).
      cbn [plugin]. by destruct (upsert _ _ _ _); [rewrite plugin_notify | ].
    + rewrite (AddFunc_filtered _ _ send o σ Hns).
      by rewrite (AddFunc_filtered _ _ None o (mkMachine (plugin σ) [] tt) Hns).
  - by rewrite !plugin_UpdateFunc.
  - destruct (configuredNamespace (namespaces (plugin σ)) (Namespace o)) eqn:Hns.
    + rewrite (DeleteFunc_configured _ _ send o σ Hns).
      rewrite (DeleteFunc_configured _ _ None o (mkMachine (plugin σ) [] tt) Hns).
      by rewrite plugin_notify.
    + rewrite (DeleteFunc_filtered _ _ send o σ Hns).
      by rewrite (DeleteFunc_filtered _ _ None o (mkMachine (plugin σ) [] tt) Hns).
Qed.

(** A notification is the identity on the resolver or, behind the filter, a
    change of the one entry of its DNS name in the map the name selects. *)
Lemma react_local ev :
  (∀ r, react isWildcard configuredNamespace ev r = r)
  ∨ ∃ n f (accepts : gset string → bool),
      dnsNameOf ev = Some n
      ∧ ∀ r, react isWildcard configuredNamespace ev r
             = if accepts (namespaces r)
               then set_selected isWildcard n
                      (partial_alter f n (selected isWildcard n r)) r
               else r.
Proof.
  destruct ev as [[o|v]|oldObj newObj|[o|v]];
    try (left; intros r; unfold react; cbn [handle]; done);
    try (left; intros r; unfold react; cbn [handle];
         by rewrite plugin_UpdateFunc).
  - right.
    destruct (upsert_partial_alter (SpecName (Spec o)) (Namespace o) (Name o))
      as [f Hf].
    exists (SpecName (Spec o)), f,
      (λ ns, configuredNamespace ns (Namespace o)).
    split; [done | ]. intros r. unfold react. cbn [handle].
    destruct (configuredNamespace (namespaces r) (Namespace o)) eqn:Hns.
    + rewrite (AddFunc_configured _ _ None o (mkMachine r [] tt) Hns).
      cbn [plugin]. rewrite <- Hf.
      destruct (upsert _ _ _ _); simpl; [done | ].
      by rewrite set_selected_id.
    + by rewrite (AddFunc_filtered _ _ None o (mkMachine r [] tt) Hns).
  - right.
    destruct (remove_partial_alter (SpecName (Spec o)) (Namespace o) (Name o))
      as [f Hf].
    exists (SpecName (Spec o)), f,
      (λ ns, configuredNamespace ns (Namespace o)).
    split; [done | ]. intros r. unfold react. cbn [handle].
    destruct (configuredNamespace (namespaces r) (Namespace o)) eqn:Hns.
    + rewrite (DeleteFunc_configured _ _ None o (mkMachine r [] tt) Hns).
      cbn [plugin]. by rewrite <- Hf.
    + by rewrite (DeleteFunc_filtered _ _ None o (mkMachine r [] tt) Hns).
Qed.

Lemma react_commute ev1 ev2 r :
  dnsNameOf ev1 ≠ dnsNameOf ev2 →
  react isWildcard configuredNamespace ev1
    (react isWildcard configuredNamespace ev2 r)
  = react isWildcard configuredNamespace ev2
      (react isWildcard configuredNamespace ev1 r).
Proof.
  intros Hne.
  destruct (react_local ev1) as [Hid1|(n1 & f1 & a1 & Hn1 & H1)];
    [by rewrite !Hid1 | ].
  destruct (react_local ev2) as [Hid2|(n2 & f2 & a2 & Hn2 & H2)];
    [by rewrite !Hid2 | ].
  assert (n1 ≠ n2) as Hn by congruence.
  rewrite (H2 r), (H1 r).
  destruct (a1 (namespaces r)) eqn:Ha1, (a2 (namespaces r)) eqn:Ha2;
    rewrite ?H1, ?H2, ?namespaces_set_selected, ?Ha1, ?Ha2; try done.
  unfold set_selected, selected.
  unfold set_wildcardDNSInfo, set_regularDNSInfo.
  destruct (isWildcard n1), (isWildcard n2), r; simpl; f_equal;
    first [ done | by apply partial_alter_partial_alter_ne ].
Qed.

(** X8, notifications for different DNS names commute.  Handling two
    notifications that do not work on the entry of the same DNS name in
    either order leaves the same resolver. *)
Theorem distinct_names_commute {W} (send : option (DNSNameResolver → W → W))
    ev1 ev2 (σ : machine W) :
  dnsNameOf ev1 ≠ dnsNameOf ev2 →
  plugin (handle isWildcard configuredNamespace send ev1
            (handle isWildcard configuredNamespace send ev2 σ))
  = plugin (handle isWildcard configuredNamespace send ev2
              (handle isWildcard configuredNamespace send ev1 σ)).
Proof.
  intros Hne. rewrite !plugin_handle. by apply react_commute.
Qed.

End Commutation.

(** ** More on deliveries: one namespace for each name *)

Lemma oneNamespaceEach_upsert (info info' : dnsInfo) dnsName namespace name :
  oneNamespaceEach info →
  name ≠ String.EmptyString →
  upsert info dnsName namespace name = Some info' →
  oneNamespaceEach info'.
Proof.
  intros Hinfo Hname Hup n m Hn. destruct (decide (dnsName = n)) as [<-|Hne];
    [ | rewrite (upsert_lookup_ne _ _ _ _ _ _ Hne Hup) in Hn; by eapply Hinfo].
  revert Hup. unfold upsert. destruct (info !! dnsName) as [m0|] eqn:Hm0.
  - case_bool_decide as Heq; [done | ]. intros [= <-].
    rewrite lookup_insert_eq in Hn. injection Hn as <-.
    assert (m0 !! namespace = Some name) as Hns.
    { unfold mapIndex in Heq. destruct (m0 !! namespace) as [v|]; simpl in Heq.
      - f_equal. by destruct (decide (v = name)).
      - by destruct (decide (String.EmptyString = name)) as [<-|?]. }
    rewrite (insert_id _ _ _ Hns). by eapply Hinfo.
  - intros [= <-]. rewrite lookup_insert_eq in Hn. injection Hn as <-.
    by rewrite insert_empty, map_size_singleton.
Qed.

Lemma oneNamespaceEach_remove (info : dnsInfo) dnsName namespace name :
  oneNamespaceEach info →
  oneNamespaceEach (remove info dnsName namespace name).
Proof.
  intros Hinfo n m Hn. destruct (decide (dnsName = n)) as [<-|Hne];
    [ | rewrite (remove_lookup_ne _ _ _ _ _ Hne) in Hn; by eapply Hinfo].
  destruct (info !! dnsName) as [m0|] eqn:Hm0;
    [ | by rewrite (remove_absent _ _ _ _ Hm0), Hm0 in Hn].
  destruct (decide (mapIndex m0 namespace = name)) as [Heq|Hneq];
    [ | rewrite (remove_mismatch _ _ _ _ _ Hm0 Hneq), Hm0 in Hn;
        injection Hn as <-; by eapply Hinfo].
  rewrite (remove_match _ _ _ _ _ Hm0 Heq) in Hn.
  case_decide as Hempty; [by rewrite lookup_delete_eq in Hn | ].
  rewrite lookup_insert_eq in Hn. injection Hn as <-.
  specialize (Hinfo _ _ Hm0).
  destruct (m0 !! namespace) as [v|] eqn:Hns.
  - destruct Hempty. apply map_size_empty_iff.
    rewrite map_size_delete, Hns. simpl. lia.
  - by rewrite (delete_id _ _ Hns).
Qed.

Section OneNamespace.

Variable isWildcard : string → bool.
Variable configuredNamespace : gset string → string → bool.
Context {W : Type}.

Implicit Types (σ : machine W) (send : option (DNSNameResolver → W → W)).

Lemma handle_oneNamespaceEach send ev σ :
  namedAdd ev →
  oneNamespaceEach (regularDNSInfo (plugin σ))
  ∧ oneNamespaceEach (wildcardDNSInfo (plugin σ)) →
  oneNamespaceEach
    (regularDNSInfo (plugin (handle isWildcard configuredNamespace send ev σ)))
  ∧ oneNamespaceEach
      (wildcardDNSInfo (plugin (handle isWildcard configuredNamespace send ev σ))).
Proof.
  intros Hnamed [Hreg Hwild].
  destruct (handle_plugin isWildcard configuredNamespace send ev σ)
    as [->|(o & m & Hm & ->)]; [done | ].
  assert (oneNamespaceEach m) as Hone.
  { unfold selected in Hm. destruct Hm as [[-> Hup]|[_ ->]].
    - eapply oneNamespaceEach_upsert; [ | exact Hnamed | exact Hup].
      by destruct (isWildcard (SpecName (Spec o))).
    - apply oneNamespaceEach_remove.
      by destruct (isWildcard (SpecName (Spec o))). }
  unfold set_selected. by destruct (isWildcard (SpecName (Spec o))).
Qed.

(** X9, no entry ever holds a second namespace.  Starting from two empty
    maps, after any sequence of notifications in which every added
    DNSNameResolver has a name, every key of either map is mapped to
    exactly one namespace: an Add for a DNS name that has an entry returns
    at the mismatch branch for every namespace but the one recorded. *)
Theorem one_namespace_each send evs σ :
  regularDNSInfo (plugin σ) = ∅ →
  wildcardDNSInfo (plugin σ) = ∅ →
  Forall namedAdd evs →
  let σ' := deliver isWildcard configuredNamespace send evs σ in
  oneNamespaceEach (regularDNSInfo (plugin σ'))
  ∧ oneNamespaceEach (wildcardDNSInfo (plugin σ')).
Proof.
  intros Hreg Hwild Hevs σ'. subst σ'.
  assert (oneNamespaceEach (regularDNSInfo (plugin σ))
          ∧ oneNamespaceEach (wildcardDNSInfo (plugin σ))) as Hσ.
  { rewrite Hreg, Hwild. split; intros n m; by rewrite lookup_empty. }
  clear Hreg Hwild. revert σ Hσ.
  induction Hevs as [|ev evs Hev _ IH]; intros σ Hσ; [done | ].
  apply IH. by apply handle_oneNamespaceEach.
Qed.

End OneNamespace.

(** ** More on the lifecycle *)

Lemma awaitSync_waiting before lines :
  Forall (λ t, returning t = false) before →
  awaitSync before lines = None.
Proof.
  intros Hbefore. revert lines.
  induction Hbefore as [|[[|]| |] before Ht _ IH]; intros lines; simpl; done.
Qed.

Lemma awaitSync_returns before t after lines :
  Forall (λ t, returning t = false) before →
  returning t = true →
  awaitSync (before ++ t :: after) lines
  = Some (None,
          lines ++ waitingLines before
          ++ match t with
             | TimeoutTick =>
                 [(Warning, "starting server with unsynced DNS Name Resolver Informer")]
             | _ => []
             end).
Proof.
  intros Hbefore Ht. revert lines.
  induction Hbefore as [|[[|]| |] before Hb _ IH]; intros lines;
    try done; simpl.
  - destruct t as [[|]| |]; try done; simpl. by rewrite app_nil_r.
  - apply IH.
  - rewrite IH. by rewrite <- app_assoc.
Qed.

Lemma awaitSync_None ticks lines :
  awaitSync ticks lines = None → Forall (λ t, returning t = false) ticks.
Proof.
  revert lines. induction ticks as [|[[|]| |] ticks IH]; intros lines; simpl;
    try done; intros Hwait; constructor; try done; by eapply IH.
Qed.

(** X10, how long the startup callback waits and what it logs.  (1) The
    callback is still waiting exactly when no tick so far was a check that
    saw the informer synced or the timeout.  (2) At the first such tick it
    returns nil; what follows that tick plays no part; it has logged one
    waiting line for every tick of the log ticker before it, and after
    these the warning if the tick is the timeout. *)
Theorem startup_waits :
  (∀ ticks, onStart ticks = None ↔ Forall (λ t, returning t = false) ticks)
  ∧ (∀ before t after,
       Forall (λ t, returning t = false) before →
       returning t = true →
       onStart (before ++ t :: after)
       = Some (None,
               waitingLines before
               ++ match t with
                  | TimeoutTick =>
                      [(Warning, "starting server with unsynced DNS Name Resolver Informer")]
                  | _ => []
                  end)).
Proof.
  split.
  - intros ticks. split; [apply awaitSync_None | apply awaitSync_waiting].
  - intros before t after Hbefore Ht. unfold onStart.
    by rewrite (awaitSync_returns _ _ _ _ Hbefore Ht).
Qed.


(** ** Notifications and shutdown calls in any order *)

Section Serving.

Variable isWildcard : string → bool.
Variable configuredNamespace : gset string → string → bool.
Context {W : Type}.

Implicit Types (σ : machine W) (send : option (DNSNameResolver → W → W)).
Implicit Types (cs : list call).

Lemma set_plugin_plugin σ : set_plugin (plugin σ) σ = σ.
Proof. by destruct σ. Qed.

(** The handlers do not look at the stop channel or the shutdown flag. *)
Lemma handle_stop send ev σ :
  handle isWildcard configuredNamespace send ev (stop σ)
  = stop (handle isWildcard configuredNamespace send ev σ).
Proof.
  destruct σ as [r l w].
  destruct ev as [[o|v]|[o|v] newObj|[o|v]]; try done;
    unfold stop, handle, AddFunc, DeleteFunc, UpdateFunc; simpl;
    destruct (configuredNamespace (namespaces r) (Namespace o)); simpl;
    try done.
  - destruct (isWildcard (SpecName (Spec o)));
      destruct (upsert _ _ _ _); by destruct send.
  - by destruct send.
  - destruct (isWildcard (SpecName (Spec o))); by destruct send.
Qed.

Lemma deliver_stop send evs σ :
  deliver isWildcard configuredNamespace send evs (stop σ)
  = stop (deliver isWildcard configuredNamespace send evs σ).
Proof.
  revert σ. induction evs as [|ev evs IH]; intros σ; [done | ].
  by rewrite !deliver_cons, handle_stop, IH.
Qed.

Lemma serve_stopped send cs σ :
  shutdown (plugin σ) = true →
  serve isWildcard configuredNamespace send cs σ
  = Returns (replicate (shuts cs) (Some "shutdown already in progress"),
             deliver isWildcard configuredNamespace send (notifications cs) σ).
Proof.
  revert σ. induction cs as [|[ev|] cs IH]; intros σ Hshut; [done | | ].
  - cbn [serve shuts notifications flat_map app]. rewrite deliver_cons.
    apply IH.
    destruct (handle_untouched isWildcard configuredNamespace send ev σ)
      as (_ & _ & _ & _ & ->). done.
  - cbn [serve shuts notifications flat_map app].
    rewrite (onShut_again _ Hshut), set_plugin_plugin.
    by rewrite (IH σ Hshut).
Qed.

(** X12, notifications and shutdown calls in any order.  On a state whose
    stop channel is open and whose shutdown flag is unset, as [initPlugin]
    leaves it, any sequence of notifications and shutdown calls runs
    without a panic; the first shutdown call returns nil and every later
    one the error; and the state at the end is the one the notifications
    alone lead to, with the channel closed and the flag set if there was a
    shutdown call: the handlers go on updating the maps after a shutdown
    as before it, and a shutdown touches neither map. *)
Theorem serve_safely send cs σ :
  stopCh (plugin σ) = ChanOpen →
  shutdown (plugin σ) = false →
  let σ' := deliver isWildcard configuredNamespace send (notifications cs) σ in
  serve isWildcard configuredNamespace send cs σ
  = Returns (shutdownErrors (shuts cs),
             if decide (shuts cs = 0) then σ' else stop σ').
Proof.
  intros Hch Hshut σ'. subst σ'. revert σ Hch Hshut.
  induction cs as [|[ev|] cs IH]; intros σ Hch Hshut; [done | | ].
  - cbn [serve shuts notifications flat_map app]. rewrite deliver_cons.
    destruct (handle_untouched isWildcard configuredNamespace send ev σ)
      as (_ & _ & _ & Hch' & Hshut').
    apply IH; congruence.
  - cbn [serve shuts notifications flat_map app shutdownErrors].
    rewrite (onShut_first _ Hch Hshut). fold (stop σ).
    rewrite serve_stopped by done.
    by rewrite decide_False, deliver_stop.
Qed.

End Serving.

(** ** Instances of the further properties *)

Lemma register_unregister_witness :
  let add := AddFunc isWildcardPrefix inAllowSet record (ObjDNSNameResolver starA1) owned in
  let del := DeleteFunc isWildcardPrefix inAllowSet record (ObjDNSNameResolver starA1) add in
  selected isWildcardPrefix "*.example.com" (plugin add)
  = <["*.example.com" := {[ "team-a" := "resolver-3" ]}]>
      (selected isWildcardPrefix "*.example.com" (plugin owned))
  ∧ unselected isWildcardPrefix "*.example.com" (plugin add)
    = unselected isWildcardPrefix "*.example.com" (plugin owned)
  ∧ plugin del = plugin owned.
Proof.
  apply (register_unregister isWildcardPrefix inAllowSet record starA1 owned);
    vm_compute; reflexivity.
Defined.

Lemma add_outcome_witness :
  let σ' := AddFunc isWildcardPrefix inAllowSet record (ObjDNSNameResolver svcB2) owned in
  (σ' = owned
   ∧ owner (selected isWildcardPrefix "svc.example.com" (plugin owned))
       "svc.example.com" "team-b" ≠ Some "resolver-2")
  ∨ (owner (selected isWildcardPrefix "svc.example.com" (plugin σ'))
       "svc.example.com" "team-b" = Some "resolver-2"
     ∧ observed σ' = observed owned ++ [svcB2]
     ∧ logged σ' = logged owned).
Proof.
  apply (add_outcome isWildcardPrefix inAllowSet record svcB2 owned).
  vm_compute. reflexivity.
Defined.


Lemma owner_stays_witness :
  owner (selected isWildcardPrefix "svc.example.com"
           (plugin (deliver isWildcardPrefix inAllowSet record
                      [Added (ObjDNSNameResolver svcB2);
                       Deleted (ObjDNSNameResolver svcB2);
                       Added (ObjDNSNameResolver starA1);
                       Updated (ObjDNSNameResolver svcA1) (ObjDNSNameResolver svcB2)]
                      owned)))
    "svc.example.com" "team-a"
  = Some "resolver-1".
Proof.
  apply (owner_stays isWildcardPrefix inAllowSet record _ owned
           "svc.example.com" "team-a" "resolver-1").
  - vm_compute. reflexivity.
  - intros Hin. repeat (apply elem_of_cons in Hin as [Hin|Hin]; [discriminate | ]).
    by apply elem_of_nil in Hin.
Defined.

Lemma owner_origin_witness :
  owner (selected isWildcardPrefix "*.example.com" (plugin freshAB))
    "*.example.com" "team-a" = Some "resolver-3"
  ∨ Added (resolverObject "team-a" "resolver-3" "*.example.com")
      ∈ [Added (ObjDNSNameResolver svcA1); Added (ObjDNSNameResolver starA1)]
    ∧ inAllowSet (namespaces (plugin freshAB)) "team-a" = true.
Proof.
  apply (owner_origin isWildcardPrefix inAllowSet record
           [Added (ObjDNSNameResolver svcA1); Added (ObjDNSNameResolver starA1)]
           freshAB "*.example.com" "team-a" "resolver-3").
  vm_compute. reflexivity.
Defined.

Lemma distinct_names_commute_witness :
  plugin (handle isWildcardPrefix inAllowSet record (Added (ObjDNSNameResolver starA1))
            (handle isWildcardPrefix inAllowSet record
               (Deleted (ObjDNSNameResolver svcA1)) owned))
  = plugin (handle isWildcardPrefix inAllowSet record (Deleted (ObjDNSNameResolver svcA1))
              (handle isWildcardPrefix inAllowSet record
                 (Added (ObjDNSNameResolver starA1)) owned)).
Proof.
  apply (distinct_names_commute isWildcardPrefix inAllowSet record
           (Added (ObjDNSNameResolver starA1)) (Deleted (ObjDNSNameResolver svcA1))
           owned).
  discriminate.
Defined.

Lemma one_namespace_each_witness :
  let σ' := deliver isWildcardPrefix inAllowSet record
              [Added (ObjDNSNameResolver svcA1);
               Added (ObjDNSNameResolver svcB2);
               Added (ObjDNSNameResolver starA1)] freshAB in
  oneNamespaceEach (regularDNSInfo (plugin σ'))
  ∧ oneNamespaceEach (wildcardDNSInfo (plugin σ')).
Proof.
  apply (one_namespace_each isWildcardPrefix inAllowSet record _ freshAB);
    [reflexivity | reflexivity | ].
  repeat constructor; discriminate.
Defined.

Lemma startup_waits_witness :
  onStart ([CheckSyncTick false; LogTick; LogTick] ++ CheckSyncTick true :: [TimeoutTick])
  = Some (None,
          [(Info, "waiting for DNS Name Resolver Informer sync before starting server");
           (Info, "waiting for DNS Name Resolver Informer sync before starting server")]).
Proof.
  apply (proj2 startup_waits [CheckSyncTick false; LogTick; LogTick]
           (CheckSyncTick true) [TimeoutTick]).
  - repeat constructor.
  - reflexivity.
Defined.


Lemma serve_safely_witness :
  let cs := [Notify (Added (ObjDNSNameResolver svcA1)); Shut;
             Notify (Added (ObjDNSNameResolver starA1)); Shut] in
  serve isWildcardPrefix inAllowSet record cs freshAB
  = Returns ([None; Some "shutdown already in progress"],
             stop (deliver isWildcardPrefix inAllowSet record (notifications cs) freshAB)).
Proof.
  apply (serve_safely isWildcardPrefix inAllowSet record
           [Notify (Added (ObjDNSNameResolver svcA1)); Shut;
            Notify (Added (ObjDNSNameResolver starA1)); Shut] freshAB);
    reflexivity.
Defined.
